(** * yuka fuzzy module: a shallow embedding of [src/fuzzy/FuzzyModule.js]

    The module registry and its inference cycle are translated from the
    JavaScript source.  JavaScript objects are references into a store, a
    method that throws keeps the side effects it made before throwing, and
    every call the module makes on a rule, on a fuzzy variable or on the
    logger is recorded in a trace.

    The module is written over the interface of its collaborators.  The
    classes behind that interface (fuzzy sets, terms, rules, variables) are
    not among the sources; they are modelled from the specification, and the
    two test suites that are among the sources (FuzzyOR, FuzzyTerm) are
    translated as they are written. *)

From Stdlib Require Import Floats ZArith.
From stdpp Require Import gmap strings list.

#[local] Set Warnings "-inexact-float".

(** ** JavaScript values and completions *)

(** Object references. *)
Definition loc := positive.

(** JavaScript values; numbers are IEEE binary64. *)
Inductive value :=
| VUndefined
| VNull
| VBoolean (b : bool)
| VNumber (x : float)
| VString (s : string)
| VObject (l : loc).

(** [a === b]: numbers compare by IEEE equality, so [NaN] differs from itself
    and [-0] equals [+0]; objects compare by reference. *)
Definition strict_equals (a b : value) : bool :=
  match a, b with
  | VUndefined, VUndefined => true
  | VNull, VNull => true
  | VBoolean x, VBoolean y => Bool.eqb x y
  | VNumber x, VNumber y => PrimFloat.eqb x y
  | VString x, VString y => String.eqb x y
  | VObject x, VObject y => Pos.eqb x y
  | _, _ => false
  end.

Inductive exn :=
| TypeError            (* a property read or a call on [undefined] *)
| DomainError          (* a crisp value outside the range of a variable *)
| ConfigurationError   (* an ill-formed fuzzy expression *)
| ProgrammingError.    (* an abstract method that was not overridden *)

Inductive completion (A : Type) :=
| Normal (a : A)
| Throw (e : exn).
Arguments Normal {A} a.
Arguments Throw {A} e.

(** A computation over a store [St]; the store is returned in both cases,
    because an exception does not undo earlier writes. *)
Definition JS (St A : Type) : Type := St -> completion A * St.

Definition ret {St A} (a : A) : JS St A := fun s => (Normal a, s).
Definition throw {St A} (e : exn) : JS St A := fun s => (Throw e, s).
Definition bind {St A B} (m : JS St A) (k : A -> JS St B) : JS St B :=
  fun s => match m s with
           | (Normal a, s') => k a s'
           | (Throw e, s') => (Throw e, s')
           end.

Declare Scope js_scope.
Delimit Scope js_scope with js.
Notation "'do' x <- m ; k" := (bind m (fun x => k))
  (at level 10, x name, m at level 100, k at level 200) : js_scope.
Notation "m ;; k" := (bind m (fun _ => k))
  (at level 100, k at level 200, right associativity) : js_scope.
Open Scope js_scope.

(** A parameter declared with a default value takes it when the argument is
    missing or [undefined]. *)
Definition default_parameter (arg default : value) : value :=
  if strict_equals arg VUndefined then default else arg.

(** ** Arrays *)

Section Arrays.
Context {A : Type} `{EqDecision A}.

(** [Array.prototype.indexOf]: the first index holding [x], or [-1]. *)
Fixpoint indexOf_from (i : Z) (l : list A) (x : A) : Z :=
  match l with
  | [] => (-1)%Z
  | y :: l' => if decide (y = x) then i else indexOf_from (i + 1)%Z l' x
  end.
Definition indexOf (l : list A) (x : A) : Z := indexOf_from 0%Z l x.

(** [Array.prototype.splice(start, deleteCount)] with no inserted items:
    a negative [start] counts from the end, and both arguments are clamped
    to the array. *)
Definition splice (start deleteCount : Z) (l : list A) : list A :=
  let len := Z.of_nat (length l) in
  let actualStart :=
    if (start <? 0)%Z then Z.max (len + start) 0 else Z.min start len in
  let actualDeleteCount := Z.min (Z.max deleteCount 0) (len - actualStart) in
  take (Z.to_nat actualStart) l
    ++ drop (Z.to_nat (actualStart + actualDeleteCount)) l.

(** [for ( let i = 0, l = rules.length; i < l; i ++ ) body( rules[ i ] )];
    [todo] is [l - i].  Reading past the end yields [undefined], on which
    the body's method call is a [TypeError]. *)
Fixpoint for_index {St} (todo i : nat) (l : list A) (body : A -> JS St unit)
  : JS St unit :=
  match todo with
  | O => ret tt
  | S todo' =>
      match l !! i with
      | Some x => body x ;; for_index todo' (S i) l body
      | None => throw TypeError
      end
  end.

(** The same loop as a traversal of the array. *)
Definition for_each {St} (l : list A) (body : A -> JS St unit) : JS St unit :=
  (fix go (l : list A) : JS St unit :=
     match l with
     | [] => ret tt
     | x :: l' => body x ;; go l'
     end) l.
End Arrays.

(** ** The collaborators of the module

    [FuzzyRule], [FuzzyVariable] and [Logger] are other classes of the
    library.  The module only calls their methods, so it is written over
    their interface: references to rules and variables, the store [Heap] of
    the objects reachable from them, and one store transformer per method.
    Rules and variables hold no reference to the module, so their methods act
    on [Heap] alone. *)
Class Collaborators := {
  Rule : Type;
  FLV : Type;
  Heap : Type;
  Rule_eq_dec :: EqDecision Rule;
  rule_initConsequence : Rule -> JS Heap unit;
  rule_evaluate : Rule -> JS Heap unit;
  flv_fuzzify : FLV -> value -> JS Heap unit;
  flv_defuzzifyMaxAv : FLV -> JS Heap value;
  flv_defuzzifyCentroid : FLV -> JS Heap value;
}.

(** ** FuzzyModule *)

Module FuzzyModule.
Section WithCollaborators.
Context `{Collaborators}.

(** The two fields set by the constructor. *)
Record t := mk {
  rules : list Rule;          (* this.rules = new Array() *)
  flvs : gmap string FLV;     (* this.flvs = new Map() *)
}.

(** Calls made on the collaborators, in the order they are made. *)
Inductive Event :=
| InitConsequence (rule : Rule)
| Evaluate (rule : Rule)
| Fuzzify (flv : FLV) (v : value)
| DefuzzifyMaxAv (flv : FLV)
| DefuzzifyCentroid (flv : FLV)
| Warn (msg : string) (arg : value).

Record World := mkWorld {
  modules : gmap loc t;       (* the FuzzyModule instances *)
  heap : Heap;                (* rules, variables and their fuzzy sets *)
  trace : list Event;
}.

(** A method call on a collaborator: logged, then run on the heap. *)
Definition call {A} (ev : Event) (m : JS Heap A) : JS World A :=
  fun w =>
    let '(r, h) := m (heap w) in
    (r, {| modules := modules w; heap := h; trace := trace w ++ [ev] |}).

(** [Logger.warn( msg, arg )] *)
Definition Logger_warn (msg : string) (arg : value) : JS World unit :=
  fun w => (Normal tt, {| modules := modules w; heap := heap w;
                          trace := trace w ++ [Warn msg arg] |}).

(** Reading and writing the fields of [this]. *)
Definition get (this : loc) : JS World t :=
  fun w => match modules w !! this with
           | Some m => (Normal m, w)
           | None => (Throw TypeError, w)
           end.
Definition put (this : loc) (m : t) : JS World unit :=
  fun w => (Normal tt, {| modules := <[this := m]> (modules w);
                          heap := heap w; trace := trace w |}).

(** A method call on the result of [flvs.get( name )], which is
    [undefined] when the name is not a key. *)
Definition on_flv {A} (flv : option FLV) (method : FLV -> JS World A)
  : JS World A :=
  match flv with
  | Some f => method f
  | None => throw TypeError
  end.

Definition DEFUZ_TYPE_MAXAV : value := VNumber 0.
Definition DEFUZ_TYPE_CENTROID : value := VNumber 1.

Definition constructor : JS World loc :=
  fun w =>
    let this := fresh (dom (modules w)) in
    (Normal this, {| modules := <[this := mk [] ∅]> (modules w);
                     heap := heap w; trace := trace w |}).

Definition addFLV (this : loc) (name : string) (flv : FLV) : JS World loc :=
  do m <- get this;
  put this (mk (rules m) (<[name := flv]> (flvs m))) ;;
  ret this.

Definition removeFLV (this : loc) (name : string) : JS World loc :=
  do m <- get this;
  put this (mk (rules m) (delete name (flvs m))) ;;
  ret this.

Definition addRule (this : loc) (rule : Rule) : JS World loc :=
  do m <- get this;
  put this (mk (rules m ++ [rule]) (flvs m)) ;;
  ret this.

Definition removeRule (this : loc) (rule : Rule) : JS World loc :=
  do m <- get this;
  let rules := rules m in
  let index := indexOf rules rule in
  put this (mk (splice index 1 rules) (flvs m)) ;;
  ret this.

Definition fuzzify (this : loc) (name : string) (v : value) : JS World loc :=
  do m <- get this;
  let flv := flvs m !! name in
  on_flv flv (fun f => call (Fuzzify f v) (flv_fuzzify f v)) ;;
  ret this.

Definition _initConsequences (this : loc) : JS World loc :=
  do m <- get this;
  let rules := rules m in
  for_index (length rules) 0 rules
    (fun rule => call (InitConsequence rule) (rule_initConsequence rule)) ;;
  ret this.

Definition unknown_method : string :=
  "YUKA.FuzzyModule: Unknown defuzzification method:".

(** The second parameter is declared [type = FuzzyModule.DEFUZ_TYPE.MAXAV]. *)
Definition defuzzify (this : loc) (name : string) (type : value)
  : JS World value :=
  let type := default_parameter type DEFUZ_TYPE_MAXAV in
  do m <- get this;
  let flvs := flvs m in
  let rules := rules m in
  _initConsequences this ;;
  for_index (length rules) 0 rules
    (fun rule => call (Evaluate rule) (rule_evaluate rule)) ;;
  let flv := flvs !! name in
  if strict_equals type DEFUZ_TYPE_MAXAV then
    on_flv flv (fun f => call (DefuzzifyMaxAv f) (flv_defuzzifyMaxAv f))
  else if strict_equals type DEFUZ_TYPE_CENTROID then
    on_flv flv (fun f => call (DefuzzifyCentroid f) (flv_defuzzifyCentroid f))
  else
    Logger_warn unknown_method type ;;
    on_flv flv (fun f => call (DefuzzifyMaxAv f) (flv_defuzzifyMaxAv f)).
End WithCollaborators.
End FuzzyModule.

(** ** Numbers *)

(** The larger and the smaller of two numbers, by comparison. *)
Definition fmax (a b : float) : float := if (a <? b)%float then b else a.
Definition fmin (a b : float) : float := if (b <? a)%float then b else a.

(** Clamping to the unit interval. *)
Definition clamp01 (x : float) : float :=
  if (x <? 0)%float then 0%float else if (1 <? x)%float then 1%float else x.

(** The sum of a list of numbers, from the left. *)
Definition fsum (l : list float) : float := fold_left PrimFloat.add l 0%float.

(** The results of the children of a composite, up to the first that throws. *)
Fixpoint collect {A} (l : list (completion A)) : completion (list A) :=
  match l with
  | [] => Normal []
  | Throw e :: _ => Throw e
  | Normal a :: l' =>
      match collect l' with
      | Normal l'' => Normal (a :: l'')
      | Throw e => Throw e
      end
  end.

(** ** The fuzzy expression classes

    The classes [FuzzySet], [FuzzyAND], [FuzzyOR], [FuzzyVERY], [FuzzyFAIRLY],
    [FuzzyRule] and [FuzzyVariable] are not among the source files; only the
    module that drives them and two of their test suites are.  They are
    modelled from the specification. *)

Module FuzzySet.
(** Modelled from the spec: the class FuzzySet (spec 3): the scratch degree,
    the representative value and the shape function of the set. *)
Record t := mk {
  degreeOfMembership : float;
  representativeValue : float;
  membershipFunction : float -> float;
}.

Definition with_degree (s : t) (d : float) : t :=
  mk d (representativeValue s) (membershipFunction s).

(** Modelled from the spec: FuzzySet.fuzzify (spec 4.2): the shape function
    at the crisp value, clamped to [0,1], is stored and returned. *)
Definition fuzzify (s : t) (crisp : float) : t * float :=
  let d := clamp01 (membershipFunction s crisp) in (with_degree s d, d).

(** Modelled from the spec: FuzzySet.getDegreeOfMembership (spec 4.1): the
    stored scratch value. *)
Definition getDegreeOfMembership (s : t) : float := degreeOfMembership s.

(** Modelled from the spec: FuzzySet.updateDegreeOfMembership (spec 4.1):
    OR-accumulate, [degreeOfMembership = max(current, value)]. *)
Definition updateDegreeOfMembership (s : t) (v : float) : t :=
  with_degree s (fmax (degreeOfMembership s) v).

(** Modelled from the spec: FuzzySet.clearDegreeOfMembership (spec 4.1):
    resets the scratch value to 0. *)
Definition clearDegreeOfMembership (s : t) : t := with_degree s 0%float.
End FuzzySet.

(** The fuzzy sets of the store, by reference: a set is shared by its
    variable and by every rule that mentions it. *)
Abbreviation SetStore := (gmap loc FuzzySet.t).

(** A method of a fuzzy set called through a reference. *)
Definition on_set (s : loc) (method : FuzzySet.t -> FuzzySet.t) : JS SetStore unit :=
  fun sets => match sets !! s with
              | Some fs => (Normal tt, <[s := method fs]> sets)
              | None => (Throw TypeError, sets)
              end.

Module FuzzyCompositeTerm.
(** Modelled from the spec: FuzzyAND.getDegreeOfMembership (spec 4.3): the
    minimum over the children's degrees; no child is a configuration
    error. *)
Definition FuzzyAND_getDegreeOfMembership (terms : list (completion float))
  : completion float :=
  match collect terms with
  | Normal [] => Throw ConfigurationError
  | Normal (d :: ds) => Normal (fold_left fmin ds d)
  | Throw e => Throw e
  end.

(** Modelled from the spec: FuzzyOR.getDegreeOfMembership (spec 4.3): the
    maximum over the children's degrees; no child is a configuration
    error (spec 7). *)
Definition FuzzyOR_getDegreeOfMembership (terms : list (completion float))
  : completion float :=
  match collect terms with
  | Normal [] => Throw ConfigurationError
  | Normal (d :: ds) => Normal (fold_left fmax ds d)
  | Throw e => Throw e
  end.

(** Modelled from the spec: FuzzyVERY.getDegreeOfMembership (spec 4.3): the
    child's degree squared. *)
Definition FuzzyVERY_getDegreeOfMembership (term : completion float)
  : completion float :=
  match term with
  | Normal d => Normal (d * d)%float
  | Throw e => Throw e
  end.

(** Modelled from the spec: FuzzyFAIRLY.getDegreeOfMembership (spec 4.3):
    the square root of the child's degree. *)
Definition FuzzyFAIRLY_getDegreeOfMembership (term : completion float)
  : completion float :=
  match term with
  | Normal d => Normal (PrimFloat.sqrt d)
  | Throw e => Throw e
  end.
End FuzzyCompositeTerm.

Module FuzzyTerm.
Import FuzzyCompositeTerm.

(** Modelled from the spec: the variants of FuzzyTerm (spec 3): a fuzzy set
    leaf, held by reference, and the composites over ordered children. *)
#[local] Unset Elimination Schemes.
Inductive t :=
| Set_ (s : loc)
| FuzzyAND (terms : list t)
| FuzzyOR (terms : list t)
| FuzzyVERY (term : t)
| FuzzyFAIRLY (term : t).
#[local] Set Elimination Schemes.

(** Modelled from the spec: getDegreeOfMembership over the variants
    (spec 4.1, 4.3): it reads the sets and has no side effect. *)
Fixpoint getDegreeOfMembership (sets : SetStore) (term : t) : completion float :=
  match term with
  | Set_ s =>
      match sets !! s with
      | Some fs => Normal (FuzzySet.getDegreeOfMembership fs)
      | None => Throw TypeError
      end
  | FuzzyAND terms =>
      FuzzyAND_getDegreeOfMembership (map (getDegreeOfMembership sets) terms)
  | FuzzyOR terms =>
      FuzzyOR_getDegreeOfMembership (map (getDegreeOfMembership sets) terms)
  | FuzzyVERY term => FuzzyVERY_getDegreeOfMembership (getDegreeOfMembership sets term)
  | FuzzyFAIRLY term => FuzzyFAIRLY_getDegreeOfMembership (getDegreeOfMembership sets term)
  end.

(** Modelled from the spec: updateDegreeOfMembership over the variants
    (spec 4.3): a composite recurses into every child with the same
    value. *)
Fixpoint updateDegreeOfMembership (term : t) (v : float) : JS SetStore unit :=
  match term with
  | Set_ s => on_set s (fun fs => FuzzySet.updateDegreeOfMembership fs v)
  | FuzzyAND terms | FuzzyOR terms =>
      for_each terms (fun child => updateDegreeOfMembership child v)
  | FuzzyVERY term | FuzzyFAIRLY term => updateDegreeOfMembership term v
  end.

(** Modelled from the spec: clearDegreeOfMembership over the variants
    (spec 4.1, 4.3): recursively over the children of a composite. *)
Fixpoint clearDegreeOfMembership (term : t) : JS SetStore unit :=
  match term with
  | Set_ s => on_set s FuzzySet.clearDegreeOfMembership
  | FuzzyAND terms | FuzzyOR terms => for_each terms clearDegreeOfMembership
  | FuzzyVERY term | FuzzyFAIRLY term => clearDegreeOfMembership term
  end.
End FuzzyTerm.

Module FuzzyRule.
(** Modelled from the spec: the class FuzzyRule (spec 3): one antecedent
    and one consequent. *)
Record t := mk {
  antecedent : FuzzyTerm.t;
  consequence : FuzzyTerm.t;
}.

(** Modelled from the spec: FuzzyRule.initConsequence (spec 4.5): clears
    the consequent subtree. *)
Definition initConsequence (rule : t) : JS SetStore unit :=
  FuzzyTerm.clearDegreeOfMembership (consequence rule).

(** Modelled from the spec: FuzzyRule.evaluate (spec 4.5): the antecedent's
    degree is pushed into the consequent subtree. *)
Definition evaluate (rule : t) : JS SetStore unit :=
  fun sets =>
    match FuzzyTerm.getDegreeOfMembership sets (antecedent rule) with
    | Normal v => FuzzyTerm.updateDegreeOfMembership (consequence rule) v sets
    | Throw e => (Throw e, sets)
    end.
End FuzzyRule.

Module FuzzyVariable.
Section Numerics.
(** The small positive threshold of MaxAv and the sample points of the
    centroid over a range; the spec fixes neither. *)
Variable threshold : float.
Variable samplePoints : float -> float -> list float.

(** Modelled from the spec: the class FuzzyVariable (spec 3): the owned
    sets by name and the bounds of their common domain. *)
Record t := mk {
  fuzzySets : gmap string loc;
  minRange : float;
  maxRange : float;
}.

Definition owned (flv : t) : list loc := (map_to_list (fuzzySets flv)).*2.

(** The owned sets, read through their references. *)
Definition read_sets (flv : t) (sets : SetStore) : completion (list FuzzySet.t) :=
  collect (map (fun s => match sets !! s with
                         | Some fs => Normal fs
                         | None => Throw TypeError
                         end) (owned flv)).

(** Modelled from the spec: FuzzyVariable.fuzzify (spec 4.4): fails outside
    [minRange, maxRange], otherwise fuzzifies every owned set. *)
Definition fuzzify (flv : t) (crisp : value) : JS SetStore unit :=
  match crisp with
  | VNumber x =>
      if ((minRange flv <=? x) && (x <=? maxRange flv))%float then
        for_each (owned flv)
          (fun s => on_set s (fun fs => fst (FuzzySet.fuzzify fs x)))
      else throw DomainError
  | _ => throw DomainError
  end.

(** Modelled from the spec: FuzzyVariable.defuzzifyMaxAv (spec 4.4): the
    average of the representative values weighted by the degrees, over the
    sets whose degree exceeds the threshold; 0 when there is none. *)
Definition maxAv (l : list FuzzySet.t) : float :=
  let qualifying :=
    filter (fun fs => (threshold <? FuzzySet.degreeOfMembership fs)%float = true) l in
  match qualifying with
  | [] => 0%float
  | _ =>
      (fsum (map (fun fs => FuzzySet.representativeValue fs
                            * FuzzySet.degreeOfMembership fs) qualifying)
       / fsum (map FuzzySet.degreeOfMembership qualifying))%float
  end.

(** Modelled from the spec: FuzzyVariable.defuzzifyMaxAv (spec 4.4) reads
    the owned sets and does not change them. *)
Definition defuzzifyMaxAv (flv : t) : JS SetStore value :=
  fun sets => match read_sets flv sets with
              | Normal l => (Normal (VNumber (maxAv l)), sets)
              | Throw e => (Throw e, sets)
              end.

(** Modelled from the spec: the combined membership curve (spec 4.4): the
    pointwise maximum of the degree-clipped shape functions. *)
Definition clippedMembership (l : list FuzzySet.t) (x : float) : float :=
  fold_left fmax
    (map (fun fs => fmin (FuzzySet.membershipFunction fs x)
                         (FuzzySet.degreeOfMembership fs)) l) 0%float.

(** Modelled from the spec: FuzzyVariable.defuzzifyCentroid (spec 4.4): the
    centroid of the combined curve over the sample points; 0 when the
    curve is zero everywhere. *)
Definition centroid (flv : t) (l : list FuzzySet.t) : float :=
  let xs := samplePoints (minRange flv) (maxRange flv) in
  let bottom := fsum (map (clippedMembership l) xs) in
  if (bottom =? 0)%float then 0%float
  else (fsum (map (fun x => x * clippedMembership l x) xs) / bottom)%float.

(** Modelled from the spec: FuzzyVariable.defuzzifyCentroid (spec 4.4) reads
    the owned sets and does not change them. *)
Definition defuzzifyCentroid (flv : t) : JS SetStore value :=
  fun sets => match read_sets flv sets with
              | Normal l => (Normal (VNumber (centroid flv l)), sets)
              | Throw e => (Throw e, sets)
              end.
End Numerics.
End FuzzyVariable.

(** ** The library as the collaborators of the module *)

(** Modelled from the spec: the objects of the absent classes that a module
    reaches (spec 3, 9): rules and variables, immutable once built, and the
    fuzzy sets they share, which carry the mutable degrees. *)
Record Store := mkStore {
  sets : SetStore;
  ruleObjects : gmap loc FuzzyRule.t;
  variables : gmap loc FuzzyVariable.t;
}.

(** A method on the fuzzy sets run inside the store. *)
Definition in_sets {A} (m : JS SetStore A) : JS Store A :=
  fun h => let '(r, s) := m (sets h) in
           (r, mkStore s (ruleObjects h) (variables h)).

(** A method called through a reference to a rule or to a variable. *)
Definition deref {O A} (objects : Store -> gmap loc O) (l : loc)
    (method : O -> JS Store A) : JS Store A :=
  fun h => match objects h !! l with
           | Some o => method o h
           | None => (Throw TypeError, h)
           end.

(** Modelled from the spec: the absent classes FuzzyRule and FuzzyVariable as
    the collaborators of the module, for a given threshold and sample
    grid. *)
Definition yuka (threshold : float) (samplePoints : float -> float -> list float)
  : Collaborators := {|
  Rule := loc;
  FLV := loc;
  Heap := Store;
  rule_initConsequence r :=
    deref ruleObjects r (fun o => in_sets (FuzzyRule.initConsequence o));
  rule_evaluate r :=
    deref ruleObjects r (fun o => in_sets (FuzzyRule.evaluate o));
  flv_fuzzify f v :=
    deref variables f (fun o => in_sets (FuzzyVariable.fuzzify o v));
  flv_defuzzifyMaxAv f :=
    deref variables f (fun o => in_sets (FuzzyVariable.defuzzifyMaxAv threshold o));
  flv_defuzzifyCentroid f :=
    deref variables f (fun o => in_sets (FuzzyVariable.defuzzifyCentroid samplePoints o));
|}.

(** ** The test suites of the repository

    A test passes when its body runs to the end: every expectation holds and
    no call throws. *)

Inductive outcome := Passed | Failed.

(** [expect( x ).to.equal( y )] *)
Definition expect_to_equal (x y : value) : bool := strict_equals x y.

(** [expect( object ).respondTo( method )]: the method exists. *)
Definition expect_respondTo {A} (method : option A) : bool :=
  match method with Some _ => true | None => false end.

(** Calling a method that may be missing. *)
Definition invoke {A} (method : option (completion A)) : completion A :=
  match method with
  | Some r => r
  | None => Throw TypeError
  end.

Definition completes {A} (r : completion A) : bool :=
  match r with Normal _ => true | Throw _ => false end.

Definition verdict (b : bool) : outcome := if b then Passed else Failed.

Module FuzzyORTest.
(** [class CustomFuzzyTerm extends FuzzyTerm], declared by the test file: a
    term with a field [degreeOfMembership], set to 0 by the constructor,
    that overrides [getDegreeOfMembership] to return the field. *)
Record CustomFuzzyTerm := mk { degreeOfMembership : float }.

Definition constructor : CustomFuzzyTerm := mk 0.
(** [term.degreeOfMembership = d] *)
Definition set_degreeOfMembership (term : CustomFuzzyTerm) (d : float)
  : CustomFuzzyTerm := mk d.
Definition getDegreeOfMembership (term : CustomFuzzyTerm) : completion float :=
  Normal (degreeOfMembership term).

(** [operator.getDegreeOfMembership()] for
    [operator = new FuzzyOR( term1, term2 )] with degrees 0.2 and 0.5. *)
Definition operator_degree : completion float :=
  let term1 := set_degreeOfMembership constructor 0.2 in
  let term2 := set_degreeOfMembership constructor 0.5 in
  FuzzyCompositeTerm.FuzzyOR_getDegreeOfMembership
    [getDegreeOfMembership term1; getDegreeOfMembership term2].

(** it( 'should return the maximum degree of membership of the sets it is
    operating on' ) *)
Definition should_return_the_maximum : outcome :=
  match operator_degree with
  | Normal d => verdict (expect_to_equal (VNumber d) (VNumber 0.5))
  | Throw _ => Failed
  end.
End FuzzyORTest.

Module FuzzyTermTest.
(** The base class [FuzzyTerm] as its test suite sees it: for each of the
    three methods, whether [new FuzzyTerm()] has it and how a call on it
    completes.  The suite calls [updateDegreeOfMembership] without an
    argument. *)
Record FuzzyTerm := mk {
  clearDegreeOfMembership : option (completion value);
  getDegreeOfMembership : option (completion value);
  updateDegreeOfMembership : option (value -> completion value);
}.

Definition update_call (term : FuzzyTerm) : option (completion value) :=
  (fun method => method VUndefined) <$> updateDegreeOfMembership term.

(** One [it( 'should exist' )]: [respondTo], then the call. *)
Definition should_exist (method : option (completion value)) : outcome :=
  verdict (expect_respondTo method && completes (invoke method)).

Definition clearDegreeOfMembership_should_exist (term : FuzzyTerm) : outcome :=
  should_exist (clearDegreeOfMembership term).
Definition getDegreeOfMembership_should_exist (term : FuzzyTerm) : outcome :=
  should_exist (getDegreeOfMembership term).
Definition updateDegreeOfMembership_should_exist (term : FuzzyTerm) : outcome :=
  should_exist (update_call term).

(** describe( 'FuzzyTerm' ) *)
Definition suite (term : FuzzyTerm) : list outcome :=
  [clearDegreeOfMembership_should_exist term;
   getDegreeOfMembership_should_exist term;
   updateDegreeOfMembership_should_exist term].

(** Modelled from the spec: the base FuzzyTerm (spec 4.1): calling any of
    the three methods on the base capability is a programming error. *)
Definition abstract : FuzzyTerm :=
  mk (Some (Throw ProgrammingError)) (Some (Throw ProgrammingError))
     (Some (fun _ => Throw ProgrammingError)).

(** A call on the base term signals an error rather than completing. *)
Definition signals_error (method : option (completion value)) : Prop :=
  exists e, invoke method = Throw e.
End FuzzyTermTest.

(** ** Vocabulary of the statements *)

(** The number of iterations a loop starts: all of them, or those up to and
    including the first that throws. *)
Fixpoint invoked {A St : Type} (l : list A) (body : A -> JS St unit) (s : St) : nat :=
  match l with
  | [] => 0
  | x :: l' =>
      match body x s with
      | (Normal _, s') => S (invoked l' body s')
      | (Throw _, _) => 1
      end
  end.

Section ModuleVocabulary.
Context `{Collaborators}.
Import FuzzyModule.

(** The calls the [switch] of [defuzzify] makes for the variable [flv]. *)
Definition dispatch (type : value) (flv : FLV) : list Event :=
  let type := default_parameter type DEFUZ_TYPE_MAXAV in
  if strict_equals type DEFUZ_TYPE_MAXAV then [DefuzzifyMaxAv flv]
  else if strict_equals type DEFUZ_TYPE_CENTROID then [DefuzzifyCentroid flv]
  else [Warn unknown_method type; DefuzzifyMaxAv flv].

(** All the calls of a defuzzification that runs to its end. *)
Definition calls_of_defuzzify (rules : list Rule) (type : value) (flv : FLV)
  : list Event :=
  map InitConsequence rules ++ map Evaluate rules ++ dispatch type flv.

(** One inference cycle on the heap: every consequent is initialised, then
    every rule is evaluated. *)
Definition rule_cycle (rules : list Rule) : JS Heap unit :=
  for_each rules rule_initConsequence ;; for_each rules rule_evaluate.

(** The [switch] of [defuzzify] on its own, on the looked-up variable. *)
Definition switch_run (type : value) (flv : option FLV) : JS World value :=
  if strict_equals type DEFUZ_TYPE_MAXAV then
    on_flv flv (fun f => call (DefuzzifyMaxAv f) (flv_defuzzifyMaxAv f))
  else if strict_equals type DEFUZ_TYPE_CENTROID then
    on_flv flv (fun f => call (DefuzzifyCentroid f) (flv_defuzzifyCentroid f))
  else
    Logger_warn unknown_method type ;;
    on_flv flv (fun f => call (DefuzzifyMaxAv f) (flv_defuzzifyMaxAv f)).
End ModuleVocabulary.

(** [d] is a number, that is, not a NaN. *)
Definition is_number (d : float) : Prop := (d =? d)%float = true.

(** The fuzzy sets a term reaches, in the order its methods visit them. *)
Fixpoint leaves (term : FuzzyTerm.t) : list loc :=
  match term with
  | FuzzyTerm.Set_ s => [s]
  | FuzzyTerm.FuzzyAND terms | FuzzyTerm.FuzzyOR terms => flat_map leaves terms
  | FuzzyTerm.FuzzyVERY term | FuzzyTerm.FuzzyFAIRLY term => leaves term
  end.

(** Clearing one set, and pushing a value into one set. *)
Definition clear_set (sets : SetStore) (s : loc) : SetStore :=
  alter FuzzySet.clearDegreeOfMembership s sets.
Definition update_set (sets : SetStore) (u : loc * float) : SetStore :=
  alter (fun fs => FuzzySet.updateDegreeOfMembership fs u.2) u.1 sets.

Definition nonnegative (fs : FuzzySet.t) : Prop :=
  (0 <=? FuzzySet.degreeOfMembership fs)%float = true.

(** The sets of [W] hold non-negative degrees. *)
Definition accumulating (W : list loc) (sets : SetStore) : Prop :=
  forall k fs, k ∈ W -> sets !! k = Some fs -> nonnegative fs.

(** Two stores hold the same degree in the set [s]. *)
Definition same_degree (sets1 sets2 : SetStore) (s : loc) : Prop :=
  FuzzySet.degreeOfMembership <$> sets1 !! s = FuzzySet.degreeOfMembership <$> sets2 !! s.

(** The sets written, and the sets read, by the rules. *)
Definition consequents (rules : list FuzzyRule.t) : list loc :=
  flat_map (fun rule => leaves (FuzzyRule.consequence rule)) rules.
Definition antecedents (rules : list FuzzyRule.t) : list loc :=
  flat_map (fun rule => leaves (FuzzyRule.antecedent rule)) rules.

(** The updates an evaluation of [rule] makes when its antecedent is read in
    [sets]. *)
Definition updates_of (sets : SetStore) (rule : FuzzyRule.t) : list (loc * float) :=
  match FuzzyTerm.getDegreeOfMembership sets (FuzzyRule.antecedent rule) with
  | Normal v => map (fun s => (s, v)) (leaves (FuzzyRule.consequence rule))
  | Throw _ => []
  end.

(** The fuzzy sets after one inference cycle over [rules]. *)
Definition cycle_sets (rules : list FuzzyRule.t) (sets : SetStore) : SetStore :=
  let cleared := fold_left clear_set (consequents rules) sets in
  fold_left update_set (flat_map (updates_of cleared) rules) cleared.

(** The rule objects behind the references a module holds. *)
Definition objects (h : Store) (rules : list loc) : list FuzzyRule.t :=
  omap (fun r => ruleObjects h !! r) rules.

(** Every rule exists, its antecedent has a degree and the sets of its
    consequent exist. *)
Definition well_authored (h : Store) (rules : list loc) : bool :=
  forallb (fun r =>
    match ruleObjects h !! r with
    | Some rule =>
        completes (FuzzyTerm.getDegreeOfMembership (sets h) (FuzzyRule.antecedent rule))
        && forallb (fun s => bool_decide (is_Some (sets h !! s)))
             (leaves (FuzzyRule.consequence rule))
    | None => false
    end) rules.

(** No rule reads a set that some rule writes: the sets that accumulate the
    consequences are independent of the fuzzified inputs (spec 4.2: the two
    roles never occur on the same set within a cycle). *)
Definition independent_consequents (h : Store) (rules : list loc) : bool :=
  forallb (fun s => bool_decide (s ∉ consequents (objects h rules)))
    (antecedents (objects h rules)).

(** ** A scenario: distance to the target and desirability of an attack *)

Module Scenario.
Import FuzzyModule.

(** The numerics of the scenario: three sample points and the threshold 0. *)
Definition samplePoints (lo hi : float) : list float :=
  [lo; ((lo + hi) / 2)%float; hi].
Definition library : Collaborators := yuka 0 samplePoints.
#[local] Existing Instance library.

Definition near : loc := 1%positive.
Definition far : loc := 2%positive.
Definition undesirable : loc := 3%positive.
Definition desirable : loc := 4%positive.
Definition distance : loc := 10%positive.
Definition desirability : loc := 11%positive.
Definition rule1 : loc := 20%positive.    (* IF near THEN desirable *)
Definition rule2 : loc := 21%positive.    (* IF far THEN undesirable *)
Definition rule3 : loc := 22%positive.    (* built, never added to the module *)
Definition rule4 : loc := 23%positive.    (* IF desirable THEN undesirable *)

(** The objects of the scenario; [desirable] still holds the degree 0.75 of
    an earlier cycle. *)
Definition store : Store := {|
  sets := list_to_map [
    (near, FuzzySet.mk 0 0 (fun x => (25 - x) / 25)%float);
    (far, FuzzySet.mk 0 50 (fun x => (x - 25) / 25)%float);
    (undesirable, FuzzySet.mk 0 25 (fun x => (50 - x) / 50)%float);
    (desirable, FuzzySet.mk 0.75 75 (fun x => (x - 50) / 50)%float)];
  ruleObjects := list_to_map [
    (rule1, FuzzyRule.mk (FuzzyTerm.Set_ near) (FuzzyTerm.Set_ desirable));
    (rule2, FuzzyRule.mk (FuzzyTerm.Set_ far) (FuzzyTerm.Set_ undesirable));
    (rule3, FuzzyRule.mk (FuzzyTerm.Set_ far) (FuzzyTerm.Set_ desirable));
    (rule4, FuzzyRule.mk (FuzzyTerm.Set_ desirable) (FuzzyTerm.Set_ undesirable))];
  variables := list_to_map [
    (distance, FuzzyVariable.mk (list_to_map [("near", near); ("far", far)]) 0 50);
    (desirability,
     FuzzyVariable.mk
       (list_to_map [("undesirable", undesirable); ("desirable", desirable)]) 0 100)];
|}.

(** [new FuzzyModule().addFLV( 'distance', .. ).addFLV( 'desirability', .. )
    .addRule( first ).addRule( second ).fuzzify( 'distance', 10 )] *)
Definition setup (first second : loc) : JS World loc :=
  do m <- constructor;
  do m <- addFLV m "distance" distance;
  do m <- addFLV m "desirability" desirability;
  do m <- addRule m first;
  do m <- addRule m second;
  fuzzify m "distance" (VNumber 10).

Definition world : World := snd (setup rule1 rule2 (mkWorld ∅ store [])).

(** A module in which [rule4] reads the set that [rule1] writes, with the two
    rules registered in either order. *)
Definition world_chained : World := snd (setup rule1 rule4 (mkWorld ∅ store [])).
Definition world_chained_swapped : World :=
  snd (setup rule4 rule1 (mkWorld ∅ store [])).

(** The module that [setup] built, and its reference. *)
Definition this : loc := 1%positive.
Definition module : t :=
  mk [rule1; rule2] (list_to_map [("distance", distance); ("desirability", desirability)]).

(** The same world with the two rules registered in the other order. *)
Definition world_swapped : World :=
  mkWorld (<[this := mk [rule2; rule1] (flvs module)]> (modules world))
          (heap world) (trace world).

(** Two fuzzy sets with the degrees 0.2 and 0.5. *)
Definition two_sets : SetStore :=
  list_to_map [(near, FuzzySet.mk 0.2 0 (fun x => x));
               (far, FuzzySet.mk 0.5 50 (fun x => x))].
End Scenario.

(** ** Vocabulary of the further properties *)

Section FrameVocabulary.
Context `{Collaborators}.
Import FuzzyModule.

(** From [w] to [w'] nothing changed but the module object at [this]. *)
Definition writes_only_module (this : loc) (w w' : World) : Prop :=
  heap w' = heap w /\
  trace w' = trace w /\
  forall other, other <> this -> modules w' !! other = modules w !! other.
End FrameVocabulary.

(** ** Recording collaborators

    Stand-ins for rules and variables, as a test would pass them to the
    module: a rule is a number, and the heap is the list of the rules that
    were served.  Rule 13 throws from [initConsequence], rule 7 from
    [evaluate]. *)

Module Doubles.
Import FuzzyModule.

Definition recording : Collaborators := {|
  Rule := nat;
  FLV := nat;
  Heap := list nat;
  rule_initConsequence r :=
    if decide (r = 13) then throw ConfigurationError
    else fun h => (Normal tt, h ++ [r]);
  rule_evaluate r :=
    if decide (r = 7) then throw ConfigurationError
    else fun h => (Normal tt, h ++ [r]);
  flv_fuzzify f v := ret tt;
  flv_defuzzifyMaxAv f := ret (VNumber 0);
  flv_defuzzifyCentroid f := ret (VNumber 1);
|}.
#[local] Existing Instance recording.

(** One module, at reference 1, with the given rules and no FLV. *)
Definition world (rules : list nat) : World :=
  mkWorld {[ 1%positive := mk rules ∅ ]} [] [].
End Doubles.

(** * Properties *)

(** ** Loops *)

Section Loops.
Context {A St : Type}.
Implicit Types (l : list A) (body : A -> JS St unit).

Lemma for_each_cons x l body s :
  for_each (x :: l) body s =
  match body x s with
  | (Normal _, s') => for_each l body s'
  | (Throw e, s') => (Throw e, s')
  end.
Proof. reflexivity. Qed.

Lemma for_index_suffix l1 l2 body s :
  for_index (length l2) (length l1) (l1 ++ l2) body s = for_each l2 body s.
Proof.
  revert l1 s. induction l2 as [|x l2 IH]; intros l1 s; [done|].
  rewrite for_each_cons. cbn [length for_index].
  rewrite lookup_app_r, Nat.sub_diag by lia. cbn [lookup list_lookup].
  unfold bind at 1. destruct (body x s) as [[[]|e] s']; [|done].
  specialize (IH (l1 ++ [x]) s').
  rewrite length_app, Nat.add_1_r, <- app_assoc in IH. exact IH.
Qed.

(** The indexed loop of the source visits the array in order. *)
Lemma for_index_for_each l body s :
  for_index (length l) 0 l body s = for_each l body s.
Proof. exact (for_index_suffix [] l body s). Qed.

Lemma for_each_app l1 l2 body s :
  for_each (l1 ++ l2) body s =
  match for_each l1 body s with
  | (Normal _, s') => for_each l2 body s'
  | (Throw e, s') => (Throw e, s')
  end.
Proof.
  revert s. induction l1 as [|x l1 IH]; intros s; [done|].
  cbn [app]. rewrite !for_each_cons.
  destruct (body x s) as [[[]|e] s']; [apply IH|done].
Qed.

Lemma for_each_ext l (f g : A -> JS St unit) s :
  Forall (fun x => forall s, f x s = g x s) l -> for_each l f s = for_each l g s.
Proof.
  intros Hl. revert s. induction Hl as [|x l Hx _ IH]; intros s; [done|].
  rewrite !for_each_cons, Hx. destruct (g x s) as [[[]|e] s']; [apply IH|done].
Qed.

Lemma invoked_le l body s : invoked l body s <= length l.
Proof.
  revert s. induction l as [|x l IH]; intros s; cbn; [lia|].
  destruct (body x s) as [[[]|e] s']; [specialize (IH s')|]; lia.
Qed.

(** A loop that runs to its end started every iteration. *)
Lemma invoked_Normal l body s u :
  fst (for_each l body s) = Normal u -> invoked l body s = length l.
Proof.
  revert s. induction l as [|x l IH]; intros s; [done|].
  rewrite for_each_cons. cbn [invoked length].
  destruct (body x s) as [[[]|e] s']; [|done]. intros Hn. by rewrite (IH s').
Qed.
End Loops.

Lemma for_each_flat_map {A B St} (g : B -> list A) (l : list B)
    (body : A -> JS St unit) s :
  for_each (flat_map g l) body s = for_each l (fun x => for_each (g x) body) s.
Proof.
  revert s. induction l as [|x l IH]; intros s; [done|].
  cbn [flat_map]. rewrite for_each_app, for_each_cons.
  destruct (for_each (g x) body s) as [[[]|e] s']; [apply IH|done].
Qed.

(** ** Arrays *)

Section ArrayFacts.
Context {A : Type} `{EqDecision A}.
Implicit Types (l : list A) (x : A).

Lemma indexOf_from_absent i l x : x ∉ l -> indexOf_from i l x = (-1)%Z.
Proof.
  revert i. induction l as [|y l IH]; intros i Hx; [done|].
  cbn. apply not_elem_of_cons in Hx as [Hne Hx].
  destruct (decide (y = x)); [congruence|]. by apply IH.
Qed.

Lemma indexOf_absent l x : x ∉ l -> indexOf l x = (-1)%Z.
Proof. apply indexOf_from_absent. Qed.

Lemma indexOf_from_first i l1 l2 x :
  x ∉ l1 -> indexOf_from i (l1 ++ x :: l2) x = (i + Z.of_nat (length l1))%Z.
Proof.
  revert i. induction l1 as [|y l1 IH]; intros i Hx; cbn.
  - rewrite decide_True by done. lia.
  - apply not_elem_of_cons in Hx as [Hne Hx].
    rewrite decide_False by congruence. rewrite IH by done. lia.
Qed.

(** [splice( i, 1 )] at an index of the array removes the element there. *)
Lemma splice_at l1 l2 x :
  splice (Z.of_nat (length l1)) 1 (l1 ++ x :: l2) = l1 ++ l2.
Proof.
  unfold splice. rewrite length_app. cbn [length].
  destruct (Z.ltb_spec (Z.of_nat (length l1)) 0); [lia|].
  replace (Z.to_nat (Z.min _ _)) with (length l1) by lia.
  replace (Z.to_nat (_ + _)) with (S (length l1)) by lia.
  rewrite take_app_length.
  change (l1 ++ x :: l2) with (l1 ++ [x] ++ l2).
  rewrite app_assoc, drop_app_length'; [done|].
  rewrite length_app. cbn. lia.
Qed.

(** [splice( -1, 1 )] removes the last element. *)
Lemma splice_minus_one l : splice (-1) 1 l = take (length l - 1) l.
Proof.
  unfold splice. cbn [Z.ltb Z.compare].
  destruct l as [|y l]; [done|].
  set (n := length (y :: l)).
  assert (0 < n) by (subst n; cbn; lia).
  replace (Z.to_nat (Z.max (Z.of_nat n + -1) 0)) with (n - 1) by lia.
  replace (Z.to_nat (_ + _)) with n by lia.
  subst n. by rewrite drop_all, app_nil_r.
Qed.
End ArrayFacts.

(** ** The module over any collaborators *)

Section ModuleProperties.
Context `{Collaborators}.
Import FuzzyModule.

Lemma for_each_call {A} (ev : A -> Event) (m : A -> JS Heap unit) l w :
  for_each l (fun x => call (ev x) (m x)) w =
  (fst (for_each l m (heap w)),
   mkWorld (modules w) (snd (for_each l m (heap w)))
           (trace w ++ map ev (take (invoked l m (heap w)) l))).
Proof.
  revert w. induction l as [|x l IH]; intros [mods h tr].
  - cbn. by rewrite app_nil_r.
  - rewrite !for_each_cons. cbn [invoked heap modules trace].
    unfold call at 1. cbn [heap modules trace].
    destruct (m x h) as [[[]|e] h'].
    + rewrite IH. cbn [heap modules trace]. by rewrite <- app_assoc.
    + done.
Qed.

Lemma initConsequences_run this w m :
  modules w !! this = Some m ->
  _initConsequences this w =
  (match fst (for_each (rules m) rule_initConsequence (heap w)) with
   | Normal _ => Normal this
   | Throw e => Throw e
   end,
   mkWorld (modules w) (snd (for_each (rules m) rule_initConsequence (heap w)))
     (trace w ++ map InitConsequence
        (take (invoked (rules m) rule_initConsequence (heap w)) (rules m)))).
Proof.
  intros Hm. unfold _initConsequences, bind, get. rewrite Hm.
  rewrite for_index_for_each, for_each_call.
  by destruct (fst _).
Qed.

(** [defuzzify], loop by loop. *)
Lemma defuzzify_run this name type w m :
  modules w !! this = Some m ->
  defuzzify this name type w =
  let ty := default_parameter type DEFUZ_TYPE_MAXAV in
  let i := for_each (rules m) rule_initConsequence (heap w) in
  let w1 := mkWorld (modules w) (snd i)
    (trace w ++ map InitConsequence
       (take (invoked (rules m) rule_initConsequence (heap w)) (rules m))) in
  match fst i with
  | Throw e => (Throw e, w1)
  | Normal _ =>
      let ev := for_each (rules m) rule_evaluate (snd i) in
      let w2 := mkWorld (modules w) (snd ev)
        (trace w1 ++ map Evaluate
           (take (invoked (rules m) rule_evaluate (snd i)) (rules m))) in
      match fst ev with
      | Throw e => (Throw e, w2)
      | Normal _ => switch_run ty (flvs m !! name) w2
      end
  end.
Proof.
  intros Hm. unfold defuzzify. unfold bind at 1. unfold get at 1. rewrite Hm.
  unfold bind at 1. rewrite (initConsequences_run this w m Hm).
  cbn zeta. destruct (fst (for_each (rules m) rule_initConsequence (heap w))); [|done].
  unfold bind at 1. rewrite for_index_for_each, for_each_call.
  cbn [heap modules trace].
  destruct (fst (for_each (rules m) rule_evaluate _)); done.
Qed.

Lemma rule_cycle_run rules h :
  rule_cycle rules h =
  match for_each rules rule_initConsequence h with
  | (Normal _, h1) => for_each rules rule_evaluate h1
  | (Throw e, h1) => (Throw e, h1)
  end.
Proof. reflexivity. Qed.

(** What the [switch] does on a registered variable. *)
Lemma switch_run_registered ty flv w :
  switch_run ty (Some flv) w =
  let m := if strict_equals ty DEFUZ_TYPE_MAXAV then flv_defuzzifyMaxAv flv
           else if strict_equals ty DEFUZ_TYPE_CENTROID then flv_defuzzifyCentroid flv
           else flv_defuzzifyMaxAv flv in
  (fst (m (heap w)),
   mkWorld (modules w) (snd (m (heap w)))
     (trace w ++
        if strict_equals ty DEFUZ_TYPE_MAXAV then [DefuzzifyMaxAv flv]
        else if strict_equals ty DEFUZ_TYPE_CENTROID then [DefuzzifyCentroid flv]
        else [Warn unknown_method ty; DefuzzifyMaxAv flv])).
Proof.
  unfold switch_run, on_flv, Logger_warn, call, bind. cbn zeta.
  repeat case_match; simplify_eq/=; rewrite <- ?app_assoc;
    repeat match goal with Hc : _ = (_, _) |- _ => rewrite Hc end; done.
Qed.

(** What the [switch] does on [undefined]. *)
Lemma switch_run_unregistered ty w :
  switch_run ty None w =
  (Throw TypeError,
   mkWorld (modules w) (heap w)
     (trace w ++
        if strict_equals ty DEFUZ_TYPE_MAXAV then []
        else if strict_equals ty DEFUZ_TYPE_CENTROID then []
        else [Warn unknown_method ty])).
Proof.
  unfold switch_run, on_flv, Logger_warn, bind, throw. destruct w.
  repeat case_match; simplify_eq/=; rewrite ?app_nil_r; done.
Qed.

Lemma switch_run_modules ty flv w :
  modules (snd (switch_run ty flv w)) = modules w.
Proof.
  destruct flv; [by rewrite switch_run_registered|by rewrite switch_run_unregistered].
Qed.

Lemma switch_run_heap ty flv (w1 w2 : World) :
  heap w1 = heap w2 ->
  fst (switch_run ty flv w1) = fst (switch_run ty flv w2) /\
  heap (snd (switch_run ty flv w1)) = heap (snd (switch_run ty flv w2)).
Proof.
  intros Hh. destruct flv as [f|].
  - rewrite !switch_run_registered. cbn. by rewrite Hh.
  - by rewrite !switch_run_unregistered.
Qed.

(** Removing a rule of the array removes its first occurrence. *)
Lemma removeRule_present this rule w m l1 l2 :
  modules w !! this = Some m -> rules m = l1 ++ rule :: l2 -> rule ∉ l1 ->
  removeRule this rule w =
  (Normal this,
   mkWorld (<[this := mk (l1 ++ l2) (flvs m)]> (modules w)) (heap w) (trace w)).
Proof.
  intros Hm Hr Hl1. unfold removeRule, bind, get, put, ret. rewrite Hm, Hr.
  unfold indexOf. rewrite indexOf_from_first by done.
  by rewrite Z.add_0_l, splice_at.
Qed.

(** Removing a rule that is not in the array drops the last rule. *)
Lemma removeRule_absent this rule w m :
  modules w !! this = Some m -> rule ∉ rules m ->
  removeRule this rule w =
  (Normal this,
   mkWorld (<[this := mk (take (length (rules m) - 1) (rules m)) (flvs m)]> (modules w))
           (heap w) (trace w)).
Proof.
  intros Hm Hr. unfold removeRule, bind, get, put, ret. rewrite Hm.
  by rewrite indexOf_absent, splice_minus_one.
Qed.

(** C10: [defuzzify( name, type )] leaves the registry as it found it: no
    FLV key is added, removed or rebound and the rule sequence keeps its
    length and order, in this module and in every other, for every name and
    every [type], whether the call returns or throws. *)
Theorem defuzzify_preserves_registry this name type w :
  modules (snd (defuzzify this name type w)) = modules w.
Proof.
  destruct (modules w !! this) as [m|] eqn:Hm.
  - rewrite (defuzzify_run this name type w m Hm). cbn zeta.
    repeat case_match; try done. by rewrite switch_run_modules.
  - unfold defuzzify, bind, get. by rewrite Hm.
Qed.

(** C3: for a name with no FLV registered under it, [fuzzify( name, value )]
    throws for every value: the lookup yields [undefined] and the call on it
    is a TypeError.  The world is left as it was: no FLV is fuzzified and no
    call is made. *)
Theorem fuzzify_unregistered this name v w m :
  modules w !! this = Some m -> flvs m !! name = None ->
  fuzzify this name v w = (Throw TypeError, w).
Proof.
  intros Hm Hn. unfold fuzzify, bind, get. rewrite Hm, Hn. done.
Qed.

(** C9: [addFLV], [removeFLV], [addRule] and [removeRule] return the
    reference [this] they were invoked on; so does every [fuzzify] that
    returns, which it does when the name is registered and the FLV accepts
    the value. *)
Theorem registry_operations_return_this this w m :
  modules w !! this = Some m ->
  (forall name flv, fst (addFLV this name flv w) = Normal this) /\
  (forall name, fst (removeFLV this name w) = Normal this) /\
  (forall rule, fst (addRule this rule w) = Normal this) /\
  (forall rule, fst (removeRule this rule w) = Normal this) /\
  (forall name v r, fst (fuzzify this name v w) = Normal r -> r = this) /\
  (forall name v flv,
      flvs m !! name = Some flv ->
      fst (flv_fuzzify flv v (heap w)) = Normal tt ->
      fst (fuzzify this name v w) = Normal this).
Proof.
  intros Hm.
  repeat split; intros;
    unfold addFLV, removeFLV, addRule, removeRule, fuzzify, bind, get, put, ret in *;
    rewrite Hm in *; try done.
  - destruct (flvs m !! name) as [f|]; [|done].
    cbn in *. unfold call in *.
    destruct (flv_fuzzify f v (heap w)) as [[[]|e] h]; cbn in *; congruence.
  - match goal with Hf : flvs m !! _ = Some _ |- _ => rewrite Hf end.
    cbn. unfold call.
    destruct (flv_fuzzify flv v (heap w)) as [[[]|e] h]; cbn in *; congruence.
Qed.

(** C5: the calls of one [defuzzify] on a registered FLV come in this order:
    [initConsequence] on every rule in registration order, then [evaluate]
    on every rule in registration order, then the dispatch on the FLV.  When
    no rule throws, all these calls are made, each once per registration,
    for every [type] and also when the dispatched method throws; a call that
    returns made exactly these calls; a call in which a rule throws made a
    prefix of them. *)
Theorem defuzzify_call_order this name type w m flv :
  modules w !! this = Some m -> flvs m !! name = Some flv ->
  let r := defuzzify this name type w in
  (forall h, rule_cycle (rules m) (heap w) = (Normal tt, h) ->
     trace (snd r) = trace w ++ calls_of_defuzzify (rules m) type flv) /\
  (exists k, trace (snd r) = trace w ++ take k (calls_of_defuzzify (rules m) type flv)) /\
  (forall v, fst r = Normal v ->
     trace (snd r) = trace w ++ calls_of_defuzzify (rules m) type flv).
Proof.
  intros Hm Hf. cbn zeta. rewrite (defuzzify_run this name type w m Hm). cbn zeta.
  rewrite rule_cycle_run.
  unfold calls_of_defuzzify, dispatch.
  set (ty := default_parameter type DEFUZ_TYPE_MAXAV).
  set (rs := rules m).
  pose proof (invoked_le rs rule_initConsequence (heap w)) as Hk1.
  destruct (for_each rs rule_initConsequence (heap w)) as [[[]|e1] h1] eqn:Hi; cbn [fst snd].
  2:{ split; [by intros h [=]|]. split; [|done]. eexists. cbn [trace]. f_equal.
      rewrite take_app_le by (rewrite length_map; exact Hk1).
      by rewrite firstn_map. }
  assert (invoked rs rule_initConsequence (heap w) = length rs) as ->.
  { apply (invoked_Normal _ _ _ tt). by rewrite Hi. }
  rewrite firstn_all. cbn [trace].
  pose proof (invoked_le rs rule_evaluate h1) as Hk2.
  destruct (for_each rs rule_evaluate h1) as [[[]|e2] h2] eqn:He; cbn [fst snd].
  2:{ split; [by intros h [=]|]. split; [|done].
      exists (length (map InitConsequence rs) + invoked rs rule_evaluate h1).
      rewrite <- app_assoc, take_app_add. do 2 f_equal.
      rewrite take_app_le by (rewrite length_map; exact Hk2).
      by rewrite firstn_map. }
  assert (invoked rs rule_evaluate h1 = length rs) as ->.
  { apply (invoked_Normal _ _ _ tt). by rewrite He. }
  rewrite firstn_all, Hf, switch_run_registered. cbn [fst snd trace].
  rewrite <- !app_assoc. split; [done|]. split; [|done].
  eexists (length (map InitConsequence rs ++ map Evaluate rs ++ _)).
  by rewrite firstn_all.
Qed.

(** C4: with a registered FLV and a [type] that is neither [MAXAV] nor
    [CENTROID], [defuzzify] does not fail on the type: it completes as the
    call with [MAXAV] does, and once the rules have run it logs one warning
    with the type and returns what [defuzzifyMaxAv] of the FLV yields. *)
Theorem defuzzify_unknown_type_falls_back this name type w m flv :
  modules w !! this = Some m -> flvs m !! name = Some flv ->
  let ty := default_parameter type DEFUZ_TYPE_MAXAV in
  strict_equals ty DEFUZ_TYPE_MAXAV = false ->
  strict_equals ty DEFUZ_TYPE_CENTROID = false ->
  let r := defuzzify this name type w in
  fst r = fst (defuzzify this name DEFUZ_TYPE_MAXAV w) /\
  (forall h, rule_cycle (rules m) (heap w) = (Normal tt, h) ->
     fst r = fst (flv_defuzzifyMaxAv flv h) /\
     heap (snd r) = snd (flv_defuzzifyMaxAv flv h) /\
     trace (snd r) =
       trace w ++ map InitConsequence (rules m) ++ map Evaluate (rules m)
               ++ [Warn unknown_method type; DefuzzifyMaxAv flv]).
Proof.
  intros Hm Hf ty Hmax Hcen. cbn zeta.
  assert (ty = type) as Hty.
  { subst ty. unfold default_parameter in *.
    destruct (strict_equals type VUndefined); [|done].
    by vm_compute in Hmax. }
  rewrite !(defuzzify_run this name _ w m Hm). cbn zeta. fold ty.
  rewrite rule_cycle_run.
  destruct (for_each (rules m) rule_initConsequence (heap w)) as [[[]|e1] h1] eqn:Hi;
    cbn [fst snd]; [|done].
  assert (invoked (rules m) rule_initConsequence (heap w) = length (rules m)) as ->.
  { apply (invoked_Normal _ _ _ tt). by rewrite Hi. }
  destruct (for_each (rules m) rule_evaluate h1) as [[[]|e2] h2] eqn:He;
    cbn [fst snd]; [|done].
  assert (invoked (rules m) rule_evaluate h1 = length (rules m)) as ->.
  { apply (invoked_Normal _ _ _ tt). by rewrite He. }
  rewrite !firstn_all, Hf, !switch_run_registered. cbn zeta. cbn [fst snd heap trace].
  rewrite Hmax, Hcen, Hty.
  change (default_parameter DEFUZ_TYPE_MAXAV DEFUZ_TYPE_MAXAV) with DEFUZ_TYPE_MAXAV.
  change (strict_equals DEFUZ_TYPE_MAXAV DEFUZ_TYPE_MAXAV) with true. cbn match.
  split; [done|]. intros h [= <-]. by rewrite <- !app_assoc.
Qed.

(** C2, as amended: for a name with no FLV registered under it, [defuzzify]
    throws, but only after the rule cycle: the heap it leaves is the heap
    after [initConsequence] and [evaluate] ran on the rules, and when both
    loops ran to their end the error is the TypeError of the call on
    [undefined], raised after all those calls; for a [type] that is neither
    [MAXAV] nor [CENTROID] the warning is logged before it, and for the two
    known types nothing else is. *)
Theorem defuzzify_unregistered_fails_after_cycle this name type w m :
  modules w !! this = Some m -> flvs m !! name = None ->
  let r := defuzzify this name type w in
  let ty := default_parameter type DEFUZ_TYPE_MAXAV in
  (exists e, fst r = Throw e) /\
  heap (snd r) = snd (rule_cycle (rules m) (heap w)) /\
  (forall h, rule_cycle (rules m) (heap w) = (Normal tt, h) ->
     fst r = Throw TypeError /\
     trace (snd r) =
       trace w ++ map InitConsequence (rules m) ++ map Evaluate (rules m)
               ++ (if strict_equals ty DEFUZ_TYPE_MAXAV then []
                   else if strict_equals ty DEFUZ_TYPE_CENTROID then []
                   else [Warn unknown_method ty])).
Proof.
  intros Hm Hf. cbn zeta. rewrite (defuzzify_run this name type w m Hm). cbn zeta.
  rewrite rule_cycle_run.
  destruct (for_each (rules m) rule_initConsequence (heap w)) as [[[]|e1] h1] eqn:Hi;
    cbn [fst snd]; [|by (split; [eauto|split; [done|intros ? [=]]])].
  assert (invoked (rules m) rule_initConsequence (heap w) = length (rules m)) as ->.
  { apply (invoked_Normal _ _ _ tt). by rewrite Hi. }
  destruct (for_each (rules m) rule_evaluate h1) as [[[]|e2] h2] eqn:He;
    cbn [fst snd]; [|by (split; [eauto|split; [done|intros ? [=]]])].
  assert (invoked (rules m) rule_evaluate h1 = length (rules m)) as ->.
  { apply (invoked_Normal _ _ _ tt). by rewrite He. }
  rewrite !firstn_all, Hf, switch_run_unregistered. cbn [fst snd heap trace].
  split; [by eauto|]. split; [done|]. intros h _. split; [done|].
  by rewrite <- !app_assoc.
Qed.
End ModuleProperties.

(** ** The order of binary64 numbers *)

Module FloatOrder.
Ltac cmp_solve :=
  repeat match goal with
  | H : context [Z.compare ?a ?b] |- _ => destruct (Z.compare_spec a b); simpl in H
  | |- context [Z.compare ?a ?b] => destruct (Z.compare_spec a b); simpl
  | H : context [PosDef.Pos.compare_cont Eq ?a ?b] |- _ =>
      change (PosDef.Pos.compare_cont Eq a b) with (Pos.compare a b) in H;
      destruct (Pos.compare_spec a b); simpl in H
  | |- context [PosDef.Pos.compare_cont Eq ?a ?b] =>
      change (PosDef.Pos.compare_cont Eq a b) with (Pos.compare a b);
      destruct (Pos.compare_spec a b); simpl
  end; try congruence; try lia.

Ltac by_cases x y z :=
  unfold SFeqb, SFleb, SFltb, SFcompare;
  destruct x as [[]|[]| |[] ? ?], y as [[]|[]| |[] ? ?], z as [[]|[]| |[] ? ?];
  simpl; try congruence; intros; cmp_solve.

Lemma SFltb_trans x y z : SFltb x y = true -> SFltb y z = true -> SFltb x z = true.
Proof. by_cases x y z. Qed.

Lemma SFleb_trans x y z : SFleb x y = true -> SFleb y z = true -> SFleb x z = true.
Proof. by_cases x y z. Qed.

Lemma SFleb_ltb_trans x y z : SFleb x y = true -> SFltb y z = true -> SFltb x z = true.
Proof. by_cases x y z. Qed.

Lemma SFltb_asym x y : SFltb x y = true -> SFltb y x = false.
Proof. by_cases x y S754_nan. Qed.

Lemma SFltb_leb x y : SFltb x y = true -> SFleb x y = true.
Proof. by_cases x y S754_nan. Qed.

Lemma SFleb_refl x : SFeqb x x = true -> SFleb x x = true.
Proof. by_cases x S754_nan S754_nan. Qed.

Lemma SFleb_total x y :
  SFeqb x x = true -> SFeqb y y = true -> SFltb x y = false -> SFleb y x = true.
Proof. by_cases x y S754_nan. Qed.

Lemma SF_above_zero_eq c x y :
  SFleb (S754_zero false) c = true -> SFltb c x = true -> SFltb c y = true ->
  SFltb x y = false -> SFltb y x = false -> x = y.
Proof. by_cases c x y; f_equal; lia. Qed.

Lemma Prim2SF_zero : Prim2SF 0 = S754_zero false.
Proof. reflexivity. Qed.

Lemma ltb_trans x y z : (x <? y)%float = true -> (y <? z)%float = true -> (x <? z)%float = true.
Proof. rewrite !FloatAxioms.ltb_spec. apply SFltb_trans. Qed.

Lemma leb_trans x y z : (x <=? y)%float = true -> (y <=? z)%float = true -> (x <=? z)%float = true.
Proof. rewrite !FloatAxioms.leb_spec. apply SFleb_trans. Qed.

Lemma leb_ltb_trans x y z : (x <=? y)%float = true -> (y <? z)%float = true -> (x <? z)%float = true.
Proof. rewrite FloatAxioms.leb_spec, !FloatAxioms.ltb_spec. apply SFleb_ltb_trans. Qed.

Lemma ltb_asym x y : (x <? y)%float = true -> (y <? x)%float = false.
Proof. rewrite !FloatAxioms.ltb_spec. apply SFltb_asym. Qed.

Lemma ltb_leb x y : (x <? y)%float = true -> (x <=? y)%float = true.
Proof. rewrite FloatAxioms.ltb_spec, FloatAxioms.leb_spec. apply SFltb_leb. Qed.

Lemma leb_refl x : is_number x -> (x <=? x)%float = true.
Proof. unfold is_number. rewrite FloatAxioms.eqb_spec, FloatAxioms.leb_spec. apply SFleb_refl. Qed.

Lemma leb_total x y :
  is_number x -> is_number y -> (x <? y)%float = false -> (y <=? x)%float = true.
Proof. unfold is_number. rewrite !FloatAxioms.eqb_spec, FloatAxioms.ltb_spec, FloatAxioms.leb_spec. apply SFleb_total. Qed.

(** Two numbers above a non-negative one are the same float when neither
    is below the other. *)
Lemma above_zero_eq c x y :
  (0 <=? c)%float = true -> (c <? x)%float = true -> (c <? y)%float = true ->
  (x <? y)%float = false -> (y <? x)%float = false -> x = y.
Proof.
  rewrite FloatAxioms.leb_spec, !FloatAxioms.ltb_spec, Prim2SF_zero. intros.
  apply Prim2SF_inj. by eapply SF_above_zero_eq.
Qed.
End FloatOrder.

(** ** Maximum of numbers *)

Section Maximum.
Import FloatOrder.

Lemma fmax_cases a b : fmax a b = a \/ fmax a b = b.
Proof. unfold fmax. destruct (a <? b)%float; auto. Qed.

Lemma fmax_number a b : is_number a -> is_number b -> is_number (fmax a b).
Proof. destruct (fmax_cases a b) as [-> | ->]; auto. Qed.

Lemma fmax_ge_l a b : is_number a -> (a <=? fmax a b)%float = true.
Proof.
  intros Ha. unfold fmax. destruct (a <? b)%float eqn:Hab.
  - by apply ltb_leb.
  - by apply leb_refl.
Qed.

Lemma fmax_ge_r a b : is_number a -> is_number b -> (b <=? fmax a b)%float = true.
Proof.
  intros Ha Hb. unfold fmax. destruct (a <? b)%float eqn:Hab.
  - by apply leb_refl.
  - by apply leb_total.
Qed.

(** The fold of [fmax] returns one of the numbers and bounds them all. *)
Lemma fold_fmax_maximum ds d :
  is_number d -> Forall is_number ds ->
  let m := fold_left fmax ds d in
  m ∈ d :: ds /\ is_number m /\ Forall (fun x => (x <=? m)%float = true) (d :: ds).
Proof.
  revert d. induction ds as [|x ds IH]; intros d Hd Hds; cbn.
  - repeat split; [left|done|]. repeat constructor. by apply leb_refl.
  - apply Forall_cons in Hds as [Hx Hds].
    destruct (IH (fmax d x) (fmax_number _ _ Hd Hx) Hds) as (Hin & Hm & Hle).
    apply Forall_cons in Hle as [Hle1 Hle]. cbn in *.
    repeat split; [|done|].
    + destruct (fmax_cases d x) as [E|E]; rewrite E in Hin |- *.
      * apply elem_of_cons in Hin as [Hin|Hin]; [rewrite Hin; left|do 2 right; done].
      * by right.
    + constructor; [|constructor; [|done]].
      * eapply leb_trans; [|exact Hle1]. by apply fmax_ge_l.
      * eapply leb_trans; [|exact Hle1]. by apply fmax_ge_r.
Qed.

(** From a non-negative start, two updates commute. *)
Lemma fmax_right_comm c x y :
  (0 <=? c)%float = true -> fmax (fmax c x) y = fmax (fmax c y) x.
Proof.
  intros Hc. unfold fmax.
  destruct (c <? x)%float eqn:Hx, (c <? y)%float eqn:Hy; rewrite ?Hx, ?Hy; try done.
  - destruct (x <? y)%float eqn:Hxy, (y <? x)%float eqn:Hyx; try done.
    + by rewrite (ltb_asym _ _ Hxy) in Hyx.
    + by eapply above_zero_eq.
  - destruct (x <? y)%float eqn:Hxy; [|done].
    by rewrite (ltb_trans _ _ _ Hx Hxy) in Hy.
  - destruct (y <? x)%float eqn:Hyx; [|done].
    by rewrite (ltb_trans _ _ _ Hy Hyx) in Hx.
Qed.

Lemma fmax_nonneg c x : (0 <=? c)%float = true -> (0 <=? fmax c x)%float = true.
Proof.
  intros Hc. unfold fmax. destruct (c <? x)%float eqn:Hx; [|done].
  apply ltb_leb. by eapply leb_ltb_trans.
Qed.

(** The accumulated maximum does not depend on the order of the updates. *)
Lemma fold_fmax_permutation vs vs' c :
  (0 <=? c)%float = true -> vs ≡ₚ vs' -> fold_left fmax vs c = fold_left fmax vs' c.
Proof.
  intros Hc Hp. revert c Hc.
  induction Hp as [|x l l' _ IH|x y l|l l' l'' _ IH1 _ IH2]; intros c Hc; cbn.
  - done.
  - apply IH. by apply fmax_nonneg.
  - by rewrite fmax_right_comm.
  - by rewrite IH1, IH2.
Qed.
End Maximum.

(** ** Terms *)

Section TermInduction.
Import FuzzyTerm.
Variable P : FuzzyTerm.t -> Prop.
Hypothesis Hset : forall s, P (Set_ s).
Hypothesis Hand : forall terms, Forall P terms -> P (FuzzyAND terms).
Hypothesis Hor : forall terms, Forall P terms -> P (FuzzyOR terms).
Hypothesis Hvery : forall term, P term -> P (FuzzyVERY term).
Hypothesis Hfairly : forall term, P term -> P (FuzzyFAIRLY term).

(** Induction over terms, with the hypothesis on every child. *)
Lemma FuzzyTerm_induction : forall term, P term.
Proof using All.
  fix IH 1. intros [s|terms|terms|term|term].
  - apply Hset.
  - apply Hand. induction terms; constructor; [apply IH|assumption].
  - apply Hor. induction terms; constructor; [apply IH|assumption].
  - apply Hvery, IH.
  - apply Hfairly, IH.
Qed.
End TermInduction.

Section TermsAsUpdates.
Import FuzzyTerm.

(** A term passes an update on to each of its leaves. *)
Lemma updateDegreeOfMembership_leaves term v sets :
  updateDegreeOfMembership term v sets =
  for_each (leaves term)
    (fun s => on_set s (fun fs => FuzzySet.updateDegreeOfMembership fs v)) sets.
Proof.
  revert sets. induction term as [s|terms IH|terms IH|term IH|term IH]
    using FuzzyTerm_induction; intros sets; cbn [updateDegreeOfMembership leaves].
  - rewrite for_each_cons. by destruct (on_set _ _ _) as [[[]|?] ?].
  - rewrite for_each_flat_map. apply for_each_ext, IH.
  - rewrite for_each_flat_map. apply for_each_ext, IH.
  - apply IH.
  - apply IH.
Qed.

Lemma clearDegreeOfMembership_leaves term sets :
  clearDegreeOfMembership term sets =
  for_each (leaves term) (fun s => on_set s FuzzySet.clearDegreeOfMembership) sets.
Proof.
  revert sets. induction term as [s|terms IH|terms IH|term IH|term IH]
    using FuzzyTerm_induction; intros sets; cbn [clearDegreeOfMembership leaves].
  - rewrite for_each_cons. by destruct (on_set _ _ _) as [[[]|?] ?].
  - rewrite for_each_flat_map. apply for_each_ext, IH.
  - rewrite for_each_flat_map. apply for_each_ext, IH.
  - apply IH.
  - apply IH.
Qed.

(** The degree of a term depends on the degrees of its leaves only. *)
Lemma getDegreeOfMembership_agree term (sets1 sets2 : SetStore) :
  Forall (fun s => FuzzySet.degreeOfMembership <$> sets1 !! s
                   = FuzzySet.degreeOfMembership <$> sets2 !! s) (leaves term) ->
  getDegreeOfMembership sets1 term = getDegreeOfMembership sets2 term.
Proof.
  induction term as [s|terms IH|terms IH|term IH|term IH]
    using FuzzyTerm_induction; cbn [getDegreeOfMembership leaves]; intros Hl.
  - apply Forall_cons in Hl as [Hl _]. unfold FuzzySet.getDegreeOfMembership.
    destruct (sets1 !! s), (sets2 !! s); simplify_eq/=; congruence.
  - f_equal. induction IH as [|t terms Ht _ IHts]; [done|].
    cbn in Hl. apply Forall_app in Hl as [Hl1 Hl2].
    cbn. f_equal; auto.
  - f_equal. induction IH as [|t terms Ht _ IHts]; [done|].
    cbn in Hl. apply Forall_app in Hl as [Hl1 Hl2].
    cbn. f_equal; auto.
  - by rewrite IH.
  - by rewrite IH.
Qed.
End TermsAsUpdates.

(** ** The inference cycle as updates of the fuzzy sets *)

Section Folds.
Context {X St : Type} (step : St -> X -> St) (Inv : St -> Prop) (ok : X -> Prop).
Hypothesis step_Inv : forall s x, Inv s -> ok x -> Inv (step s x).
Hypothesis step_comm :
  forall s x y, Inv s -> ok x -> ok y -> step (step s x) y = step (step s y) x.

(** Steps that commute on the invariant can be taken in any order. *)
Lemma fold_left_permutation l l' s :
  l ≡ₚ l' -> Forall ok l -> Inv s -> fold_left step l s = fold_left step l' s.
Proof using step_Inv step_comm.
  intros Hp. revert s.
  induction Hp as [|x l l' Hp IH|x y l|l l' l'' Hp1 IH1 Hp2 IH2]; intros s Hl Hs; cbn.
  - done.
  - apply Forall_cons in Hl as [Hx Hl]. apply IH; auto.
  - apply Forall_cons in Hl as [Hy Hl]. apply Forall_cons in Hl as [Hx Hl].
    by rewrite step_comm.
  - rewrite IH1, IH2; auto. by rewrite <- Hp1.
Qed.
End Folds.

Section SetUpdates.
Implicit Types (sets : SetStore) (s k : loc) (u : loc * float).

Lemma on_set_allocated s f sets :
  is_Some (sets !! s) -> on_set s f sets = (Normal tt, alter f s sets).
Proof.
  intros [fs Hs]. unfold on_set. rewrite Hs. f_equal.
  apply map_eq. intros k. destruct (decide (s = k)) as [->|Hne].
  - by rewrite lookup_insert_eq, lookup_alter_eq, Hs.
  - by rewrite lookup_insert_ne, lookup_alter_ne.
Qed.

Lemma alter_allocated (f : FuzzySet.t -> FuzzySet.t) s k sets :
  is_Some (alter f s sets !! k) <-> is_Some (sets !! k).
Proof. by rewrite lookup_alter_is_Some. Qed.

Lemma fold_alter_allocated {X} (key : X -> loc) (f : X -> FuzzySet.t -> FuzzySet.t)
    (l : list X) k sets :
  is_Some (fold_left (fun sets x => alter (f x) (key x) sets) l sets !! k)
  <-> is_Some (sets !! k).
Proof.
  revert sets. induction l as [|x l IH]; intros sets; cbn; [done|].
  by rewrite IH, alter_allocated.
Qed.

Lemma fold_alter_untouched {X} (key : X -> loc) (f : X -> FuzzySet.t -> FuzzySet.t)
    (l : list X) k sets :
  k ∉ map key l ->
  fold_left (fun sets x => alter (f x) (key x) sets) l sets !! k = sets !! k.
Proof.
  revert sets. induction l as [|x l IH]; intros sets Hk; cbn; [done|].
  cbn in Hk. apply not_elem_of_cons in Hk as [Hne Hk].
  by rewrite IH, lookup_alter_ne.
Qed.

(** A loop of calls on allocated sets is the fold of its updates. *)
Lemma for_each_on_set {X} (key : X -> loc) (f : X -> FuzzySet.t -> FuzzySet.t)
    (l : list X) sets :
  Forall (fun x => is_Some (sets !! key x)) l ->
  for_each l (fun x => on_set (key x) (f x)) sets =
  (Normal tt, fold_left (fun sets x => alter (f x) (key x) sets) l sets).
Proof.
  revert sets. induction l as [|x l IH]; intros sets Hl; [done|].
  apply Forall_cons in Hl as [Hx Hl].
  rewrite for_each_cons, on_set_allocated by done. cbn [fold_left].
  apply IH. eapply Forall_impl; [exact Hl|].
  intros y Hy. by apply alter_allocated.
Qed.

Lemma clear_untouched l k sets :
  k ∉ l -> fold_left clear_set l sets !! k = sets !! k.
Proof.
  intros Hk.
  apply (fold_alter_untouched id (fun _ => FuzzySet.clearDegreeOfMembership)).
  by rewrite map_id.
Qed.

(** After the sets of [l] are cleared, their degree is 0. *)
Lemma cleared l sets k fs :
  k ∈ l -> fold_left clear_set l sets !! k = Some fs ->
  FuzzySet.degreeOfMembership fs = 0%float.
Proof.
  revert sets. induction l as [|s l IH]; intros sets Hk; [by apply elem_of_nil in Hk|].
  cbn [fold_left]. destruct (decide (k ∈ l)) as [Hin|Hnin]; [by apply IH|].
  apply elem_of_cons in Hk as [->|Hk]; [|done].
  rewrite clear_untouched by done. unfold clear_set.
  rewrite lookup_alter_eq. destruct (sets !! s); [|done]. by intros [= <-].
Qed.

Lemma clear_set_comm sets s k :
  clear_set (clear_set sets s) k = clear_set (clear_set sets k) s.
Proof.
  unfold clear_set. destruct (decide (s = k)) as [->|Hne]; [done|].
  by apply alter_alter_ne.
Qed.

(** Clearing does not depend on the order of the sets. *)
Lemma clear_permutation l l' sets :
  l ≡ₚ l' -> fold_left clear_set l sets = fold_left clear_set l' sets.
Proof.
  intros Hp.
  apply (fold_left_permutation clear_set (fun _ => True) (fun _ => True)); auto.
  - intros. apply clear_set_comm.
  - by apply Forall_true.
Qed.

Lemma update_set_accumulating W sets u :
  accumulating W sets -> accumulating W (update_set sets u).
Proof.
  intros HW k fs Hk. unfold update_set.
  destruct (decide (u.1 = k)) as [<-|Hne].
  - rewrite lookup_alter_eq. destruct (sets !! u.1) as [fs0|] eqn:E; [|done].
    intros [= <-]. apply fmax_nonneg. by apply (HW (u.1) fs0).
  - rewrite lookup_alter_ne by done. by apply HW.
Qed.

Lemma update_set_comm W sets u1 u2 :
  accumulating W sets -> u1.1 ∈ W -> u2.1 ∈ W ->
  update_set (update_set sets u1) u2 = update_set (update_set sets u2) u1.
Proof.
  intros HW H1 H2. unfold update_set.
  destruct (decide (u1.1 = u2.1)) as [E|Hne]; [|by apply alter_alter_ne].
  rewrite E, !alter_alter_eq. apply alter_ext. intros fs Hfs.
  unfold FuzzySet.updateDegreeOfMembership, FuzzySet.with_degree. cbn.
  f_equal. apply fmax_right_comm. apply (HW (u2.1) fs); [done|exact Hfs].
Qed.

(** Updates of accumulating sets do not depend on their order. *)
Lemma update_permutation W us us' sets :
  us ≡ₚ us' -> Forall (fun u => u.1 ∈ W) us -> accumulating W sets ->
  fold_left update_set us sets = fold_left update_set us' sets.
Proof.
  intros Hp Hus HW.
  apply (fold_left_permutation update_set (accumulating W) (fun u => u.1 ∈ W)); auto.
  - intros. by apply update_set_accumulating.
  - intros. by apply (update_set_comm W).
Qed.
End SetUpdates.

Section RulesAsUpdates.
Implicit Types (sets : SetStore) (rules : list FuzzyRule.t).

Lemma fold_update_set_map v (l : list loc) sets :
  fold_left update_set (map (fun s => (s, v)) l) sets =
  fold_left (fun sets s =>
               alter (fun fs => FuzzySet.updateDegreeOfMembership fs v) s sets) l sets.
Proof. revert sets. induction l as [|s l IH]; intros sets; cbn; [done|apply IH]. Qed.

Lemma initConsequence_all rules sets :
  Forall (fun s => is_Some (sets !! s)) (consequents rules) ->
  for_each rules FuzzyRule.initConsequence sets =
  (Normal tt, fold_left clear_set (consequents rules) sets).
Proof.
  intros Hl. unfold consequents.
  rewrite <- (for_each_on_set id (fun _ => FuzzySet.clearDegreeOfMembership)) by done.
  rewrite (for_each_flat_map (fun rule => leaves (FuzzyRule.consequence rule))).
  apply for_each_ext, Forall_forall. intros rule _ s.
  apply clearDegreeOfMembership_leaves.
Qed.

Lemma updates_of_keys sets rule :
  map fst (updates_of sets rule) ⊆ leaves (FuzzyRule.consequence rule).
Proof.
  unfold updates_of. destruct (FuzzyTerm.getDegreeOfMembership _ _).
  - rewrite map_map. cbn. by rewrite map_id.
  - apply list_subseteq_nil.
Qed.

Lemma evaluate_all sets0 rules sets :
  Forall (fun rule => completes (FuzzyTerm.getDegreeOfMembership sets0
                                   (FuzzyRule.antecedent rule)) = true) rules ->
  Forall (same_degree sets sets0) (antecedents rules) ->
  Forall (fun s => is_Some (sets !! s)) (consequents rules) ->
  Forall (fun s => s ∉ consequents rules) (antecedents rules) ->
  for_each rules FuzzyRule.evaluate sets =
  (Normal tt, fold_left update_set (flat_map (updates_of sets0) rules) sets).
Proof.
  revert sets. induction rules as [|rule rules IH]; intros sets Hv Hag Hal Hind; [done|].
  apply Forall_cons in Hv as [Hv Hvs].
  cbn [antecedents consequents flat_map] in *.
  apply Forall_app in Hag as [Hag Hags].
  apply Forall_app in Hal as [Hal Hals].
  apply Forall_app in Hind as [Hind Hinds].
  rewrite for_each_cons. unfold FuzzyRule.evaluate at 1.
  rewrite (getDegreeOfMembership_agree _ sets sets0) by exact Hag.
  unfold updates_of at 1.
  destruct (FuzzyTerm.getDegreeOfMembership sets0 (FuzzyRule.antecedent rule))
    as [v|e]; [|done].
  rewrite updateDegreeOfMembership_leaves.
  rewrite (for_each_on_set id (fun _ fs => FuzzySet.updateDegreeOfMembership fs v))
    by exact Hal.
  rewrite fold_left_app, fold_update_set_map.
  set (sets' := fold_left _ (leaves (FuzzyRule.consequence rule)) sets).
  assert (forall k, k ∉ leaves (FuzzyRule.consequence rule) -> sets' !! k = sets !! k)
    as Hun.
  { intros k Hk. subst sets'.
    apply (fold_alter_untouched id
             (fun _ fs => FuzzySet.updateDegreeOfMembership fs v)).
    by rewrite map_id. }
  apply IH.
  - exact Hvs.
  - apply Forall_forall. intros s Hs.
    rewrite Forall_forall in Hags, Hinds.
    unfold same_degree. rewrite Hun; [by apply Hags|].
    intros Hin. apply (Hinds s Hs). apply elem_of_app. by left.
  - eapply Forall_impl; [exact Hals|]. intros s Hs. subst sets'.
    by apply (fold_alter_allocated id
                (fun _ fs => FuzzySet.updateDegreeOfMembership fs v)).
  - eapply Forall_impl; [exact Hinds|]. intros s Hs Hin.
    apply Hs, elem_of_app. by right.
Qed.
End RulesAsUpdates.

Section Authoring.
Implicit Types (h : Store) (rs : list loc).

Lemma objects_cons h r rs :
  objects h (r :: rs) =
  match ruleObjects h !! r with
  | Some rule => rule :: objects h rs
  | None => objects h rs
  end.
Proof. reflexivity. Qed.

Lemma well_authored_cons h r rs :
  well_authored h (r :: rs) = true ->
  exists rule,
    ruleObjects h !! r = Some rule /\
    completes (FuzzyTerm.getDegreeOfMembership (sets h)
                 (FuzzyRule.antecedent rule)) = true /\
    Forall (fun s => is_Some (sets h !! s)) (leaves (FuzzyRule.consequence rule)) /\
    well_authored h rs = true.
Proof.
  unfold well_authored. cbn [forallb].
  destruct (ruleObjects h !! r) as [rule|]; [|done].
  intros [[Ha Hc]%andb_prop Hrs]%andb_prop. exists rule. repeat split; try done.
  apply Forall_forall. intros s Hs.
  rewrite forallb_forall in Hc. apply list_elem_of_In in Hs.
  exact (bool_decide_eq_true_1 _ (Hc s Hs)).
Qed.

Lemma well_authored_objects h rs :
  well_authored h rs = true ->
  Forall2 (fun r rule => ruleObjects h !! r = Some rule) rs (objects h rs).
Proof.
  induction rs as [|r rs IH]; [constructor|].
  intros (rule & E & _ & _ & Hrs)%well_authored_cons.
  rewrite objects_cons, E. constructor; auto.
Qed.

Lemma well_authored_antecedents h rs :
  well_authored h rs = true ->
  Forall (fun rule => completes (FuzzyTerm.getDegreeOfMembership (sets h)
                                   (FuzzyRule.antecedent rule)) = true) (objects h rs).
Proof.
  induction rs as [|r rs IH]; [constructor|].
  intros (rule & E & Ha & _ & Hrs)%well_authored_cons.
  rewrite objects_cons, E. constructor; auto.
Qed.

Lemma well_authored_consequents h rs :
  well_authored h rs = true ->
  Forall (fun s => is_Some (sets h !! s)) (consequents (objects h rs)).
Proof.
  induction rs as [|r rs IH]; [constructor|].
  intros (rule & E & _ & Hc & Hrs)%well_authored_cons.
  rewrite objects_cons, E. apply Forall_app. auto.
Qed.

Lemma independent_consequents_spec h rs :
  independent_consequents h rs = true ->
  Forall (fun s => s ∉ consequents (objects h rs)) (antecedents (objects h rs)).
Proof.
  unfold independent_consequents. rewrite forallb_forall. intros Hi.
  apply Forall_forall. intros s Hs. apply list_elem_of_In in Hs.
  exact (bool_decide_eq_true_1 _ (Hi s Hs)).
Qed.
End Authoring.

Section Cycle.
Implicit Types (sets : SetStore) (rules : list FuzzyRule.t).

(** On well-authored rules with independent consequents, both loops of the
    cycle run to their end and leave [cycle_sets]. *)
Lemma cycle_completes rules sets :
  Forall (fun rule => completes (FuzzyTerm.getDegreeOfMembership sets
                                   (FuzzyRule.antecedent rule)) = true) rules ->
  Forall (fun s => is_Some (sets !! s)) (consequents rules) ->
  Forall (fun s => s ∉ consequents rules) (antecedents rules) ->
  for_each rules FuzzyRule.initConsequence sets =
    (Normal tt, fold_left clear_set (consequents rules) sets) /\
  for_each rules FuzzyRule.evaluate (fold_left clear_set (consequents rules) sets) =
    (Normal tt, cycle_sets rules sets).
Proof.
  intros Hv Hal Hind. split; [by apply initConsequence_all|].
  unfold cycle_sets. cbn zeta.
  set (sets1 := fold_left clear_set (consequents rules) sets).
  assert (forall s, s ∈ antecedents rules -> sets1 !! s = sets !! s) as Hun.
  { intros s Hs. apply clear_untouched. rewrite Forall_forall in Hind. auto. }
  apply evaluate_all.
  - rewrite Forall_forall in Hv |- *. intros rule Hr.
    rewrite (getDegreeOfMembership_agree _ sets1 sets); [by apply Hv|].
    apply Forall_forall. intros s Hs. unfold same_degree. rewrite Hun; [done|].
    apply list_elem_of_In, in_flat_map. exists rule.
    split; by apply list_elem_of_In.
  - by apply Forall_true.
  - eapply Forall_impl; [exact Hal|]. intros s Hs.
    by apply (fold_alter_allocated id (fun _ => FuzzySet.clearDegreeOfMembership)).
  - exact Hind.
Qed.

(** The cycle leaves the same sets whatever the order of the rules. *)
Lemma cycle_sets_permutation rules rules' sets :
  rules ≡ₚ rules' -> cycle_sets rules sets = cycle_sets rules' sets.
Proof.
  intros Hp. unfold cycle_sets. cbn zeta.
  assert (consequents rules ≡ₚ consequents rules') as Hc.
  { unfold consequents. by apply Permutation_flat_map. }
  rewrite <- (clear_permutation _ _ sets Hc).
  set (sets1 := fold_left clear_set (consequents rules) sets).
  apply (update_permutation (consequents rules)).
  - by apply Permutation_flat_map.
  - apply Forall_forall. intros u Hu.
    apply list_elem_of_In, in_flat_map in Hu as (rule & Hr & Hu).
    apply list_elem_of_In, in_flat_map. exists rule. split; [done|].
    apply list_elem_of_In. apply (updates_of_keys sets1 rule).
    apply list_elem_of_In, in_map, Hu.
  - intros k fs Hk Hfs. unfold nonnegative.
    by rewrite (cleared _ _ _ _ Hk Hfs).
Qed.
End Cycle.

Lemma well_authored_permutation h rs rs' :
  rs ≡ₚ rs' -> well_authored h rs = true -> well_authored h rs' = true.
Proof.
  unfold well_authored. rewrite !forallb_forall. intros Hp Hw r Hr.
  apply Hw. apply list_elem_of_In. rewrite Hp. by apply list_elem_of_In.
Qed.

Lemma objects_permutation h rs rs' : rs ≡ₚ rs' -> objects h rs ≡ₚ objects h rs'.
Proof. intros Hp. unfold objects. by rewrite Hp. Qed.

Lemma independent_consequents_permutation h rs rs' :
  rs ≡ₚ rs' -> independent_consequents h rs = true ->
  independent_consequents h rs' = true.
Proof.
  unfold independent_consequents. rewrite !forallb_forall. intros Hp Hi s Hs.
  pose proof (objects_permutation h rs rs' Hp) as Ho.
  assert (antecedents (objects h rs) ≡ₚ antecedents (objects h rs')) as Ha
    by (by apply Permutation_flat_map).
  assert (consequents (objects h rs) ≡ₚ consequents (objects h rs')) as Hc
    by (by apply Permutation_flat_map).
  apply bool_decide_eq_true_2. rewrite <- Hc.
  apply list_elem_of_In in Hs. rewrite <- Ha in Hs. apply list_elem_of_In in Hs.
  exact (bool_decide_eq_true_1 _ (Hi s Hs)).
Qed.

Lemma in_sets_run {A} (m : JS SetStore A) h :
  in_sets m h =
  (fst (m (sets h)), mkStore (snd (m (sets h))) (ruleObjects h) (variables h)).
Proof. unfold in_sets. by destruct (m (sets h)). Qed.

(** A loop over references to rules is the loop over the rule objects. *)
Lemma for_each_rules (method : FuzzyRule.t -> JS SetStore unit) rs rules h :
  Forall2 (fun r rule => ruleObjects h !! r = Some rule) rs rules ->
  for_each rs (fun r => deref ruleObjects r (fun rule => in_sets (method rule))) h =
  in_sets (for_each rules method) h.
Proof.
  revert rules h. induction rs as [|r rs IH]; intros rules h Hrs.
  - apply Forall2_nil_inv_l in Hrs as ->. by destruct h.
  - apply Forall2_cons_inv_l in Hrs as (rule & rules' & Hr & Hrs & ->).
    rewrite for_each_cons. unfold deref at 1. rewrite Hr.
    rewrite !in_sets_run, for_each_cons.
    destruct (method rule (sets h)) as [[[]|e] sets'] eqn:E; cbn [fst snd]; [|done].
    rewrite (IH rules'), in_sets_run; [done|exact Hrs].
Qed.

(** ** The module over the library *)

Section OverTheLibrary.
Variable threshold : float.
Variable samplePoints : float -> float -> list float.
#[local] Instance lib : Collaborators := yuka threshold samplePoints.
Import FuzzyModule.

(** The heap after each of the two loops of [defuzzify]. *)
Lemma cycle_run (rs : list Rule) (h : Heap) :
  well_authored h rs = true -> independent_consequents h rs = true ->
  for_each (A := Rule) (St := Heap) rs rule_initConsequence h =
    (Normal tt,
     mkStore (fold_left clear_set (consequents (objects h rs)) (sets h))
             (ruleObjects h) (variables h)) /\
  for_each (A := Rule) (St := Heap) rs rule_evaluate
    (mkStore (fold_left clear_set (consequents (objects h rs)) (sets h))
             (ruleObjects h) (variables h)) =
    (Normal tt,
     mkStore (cycle_sets (objects h rs) (sets h)) (ruleObjects h) (variables h)).
Proof.
  intros Hw Hi.
  destruct (cycle_completes (objects h rs) (sets h)) as [Hinit Heval].
  { by apply well_authored_antecedents. }
  { by apply well_authored_consequents. }
  { by apply independent_consequents_spec. }
  pose proof (well_authored_objects h rs Hw) as Hobj.
  split.
  - change (for_each rs (rule_initConsequence (Collaborators := lib)) h) with
      (for_each rs (fun r => deref ruleObjects r
                     (fun rule => in_sets (FuzzyRule.initConsequence rule))) h).
    rewrite (for_each_rules _ rs (objects h rs)) by done.
    by rewrite in_sets_run, Hinit.
  - change (for_each rs (rule_evaluate (Collaborators := lib)) ?h') with
      (for_each rs (fun r => deref ruleObjects r
                     (fun rule => in_sets (FuzzyRule.evaluate rule))) h').
    rewrite (for_each_rules _ rs (objects h rs)) by done.
    by rewrite in_sets_run; cbn [sets ruleObjects variables]; rewrite Heval.
Qed.

(** On well-authored rules with independent consequents, [defuzzify] is its
    [switch] run on the sets the cycle leaves. *)
Lemma defuzzify_cycle this name type (w : World) m :
  modules w !! this = Some m ->
  well_authored (heap w) (rules m) = true ->
  independent_consequents (heap w) (rules m) = true ->
  exists w2,
    heap w2 = mkStore (cycle_sets (objects (heap w) (rules m)) (sets (heap w)))
                      (ruleObjects (heap w)) (variables (heap w)) /\
    defuzzify this name type w =
    switch_run (default_parameter type DEFUZ_TYPE_MAXAV) (flvs m !! name) w2.
Proof.
  intros Hm Hw Hi.
  destruct (cycle_run (rules m) (heap w) Hw Hi) as [Hinit Heval].
  rewrite (defuzzify_run this name type w m Hm). cbn zeta.
  rewrite Hinit. cbn [fst snd]. rewrite Heval. cbn [fst snd].
  eexists. split; [|reflexivity]. done.
Qed.

(** C7: when the rules are well authored and target independent or
    OR-compatible consequents, that is, no rule reads a set that some rule
    writes (spec 4.2) and consequents shared between rules accumulate with
    OR, registering the rules in another order changes neither what
    [defuzzify] returns nor the degrees it leaves in the fuzzy sets: the
    crisp result is the same number, not only a close one. *)
Theorem defuzzify_rule_order_independent this name type (w : World) m rules' :
  modules w !! this = Some m ->
  rules m ≡ₚ rules' ->
  well_authored (heap w) (rules m) = true ->
  independent_consequents (heap w) (rules m) = true ->
  let w' := mkWorld (<[this := mk rules' (flvs m)]> (modules w)) (heap w) (trace w) in
  fst (defuzzify this name type w') = fst (defuzzify this name type w) /\
  heap (snd (defuzzify this name type w')) = heap (snd (defuzzify this name type w)).
Proof.
  intros Hm Hp Hw Hi w'.
  assert (modules w' !! this = Some (mk rules' (flvs m))) as Hm'
    by apply lookup_insert_eq.
  destruct (defuzzify_cycle this name type w m Hm Hw Hi) as (w2 & Hh2 & ->).
  destruct (defuzzify_cycle this name type w' _ Hm') as (w2' & Hh2' & ->).
  { by apply (well_authored_permutation _ (rules m)). }
  { by apply (independent_consequents_permutation _ (rules m)). }
  cbn [rules flvs heap] in *. apply switch_run_heap.
  rewrite Hh2, Hh2'. f_equal. symmetry. apply cycle_sets_permutation.
  by apply objects_permutation.
Qed.
End OverTheLibrary.

(** ** FuzzyOR *)

Lemma collect_results {A B} (f : A -> completion B) (xs : list A) (ys : list B) :
  Forall2 (fun x y => f x = Normal y) xs ys -> collect (map f xs) = Normal ys.
Proof.
  induction 1 as [|x y xs ys Hx _ IH]; [done|]. cbn. by rewrite Hx, IH.
Qed.

(** C6: a FuzzyOR with one or more children, each of which has a degree that
    is a number, returns the maximum of these degrees: one of them, and no
    child's degree is above it.  The composite of the test suite, over the
    degrees 0.2 and 0.5, yields 0.5. *)
Theorem FuzzyOR_degree_is_maximum (sets : SetStore) terms ds :
  terms <> [] ->
  Forall2 (fun term d => FuzzyTerm.getDegreeOfMembership sets term = Normal d) terms ds ->
  Forall is_number ds ->
  (exists m,
     FuzzyTerm.getDegreeOfMembership sets (FuzzyTerm.FuzzyOR terms) = Normal m /\
     m ∈ ds /\ Forall (fun d => (d <=? m)%float = true) ds) /\
  FuzzyORTest.operator_degree = Normal 0.5%float /\
  FuzzyORTest.should_return_the_maximum = Passed.
Proof.
  intros Hne Hds Hnum. split; [|split; reflexivity].
  cbn [FuzzyTerm.getDegreeOfMembership].
  unfold FuzzyCompositeTerm.FuzzyOR_getDegreeOfMembership.
  rewrite (collect_results _ _ _ Hds).
  destruct ds as [|d ds].
  - apply Forall2_nil_inv_r in Hds. contradiction.
  - apply Forall_cons in Hnum as [Hd Hnum].
    destruct (fold_fmax_maximum ds d Hd Hnum) as (Hin & _ & Hle).
    eexists. split; [reflexivity|]. split; [exact Hin|exact Hle].
Qed.

(** ** The base FuzzyTerm *)





(** The test suite of the repository and the base class of the spec
    disagree: the suite calls each of the three methods on a bare
    [new FuzzyTerm()] and passes only when the call returns, so the base
    term of the spec fails every test of it, and no base term on which one
    of the three calls signals an error passes the suite. *)
Lemma FuzzyTerm_abstract_fails_suite :
  FuzzyTermTest.suite FuzzyTermTest.abstract = [Failed; Failed; Failed] /\
  ~ exists term,
      FuzzyTermTest.suite term = [Passed; Passed; Passed] /\
      (FuzzyTermTest.signals_error (FuzzyTermTest.clearDegreeOfMembership term) \/
       FuzzyTermTest.signals_error (FuzzyTermTest.getDegreeOfMembership term) \/
       FuzzyTermTest.signals_error (FuzzyTermTest.update_call term)).
Proof.
  split; [reflexivity|].
  unfold FuzzyTermTest.suite, FuzzyTermTest.clearDegreeOfMembership_should_exist,
    FuzzyTermTest.getDegreeOfMembership_should_exist,
    FuzzyTermTest.updateDegreeOfMembership_should_exist, FuzzyTermTest.should_exist,
    FuzzyTermTest.signals_error.
  intros (term & [= Hc Hg Hu] & [[e He]|[[e He]|[e He]]]).
  - destruct (FuzzyTermTest.clearDegreeOfMembership term) as [[v|e']|]; by simplify_eq/=.
  - destruct (FuzzyTermTest.getDegreeOfMembership term) as [[v|e']|]; by simplify_eq/=.
  - destruct (FuzzyTermTest.update_call term) as [[v|e']|]; by simplify_eq/=.
Qed.

(** ** The scenario *)

Section OnTheScenario.
Import FuzzyModule Scenario.
#[local] Existing Instance library.

(** A closed equation between results, checked by evaluating both sides. *)
Ltac by_evaluation :=
  lazymatch goal with
  | |- @eq ?T ?x ?y => exact (@eq_refl T y <: @eq T x y)
  end.

Lemma scenario_module : modules world !! this = Some module.
Proof. by_evaluation. Qed.

(** C1: [rule3] was never added to the module, whose rules are [rule1] and
    [rule2]; [removeRule( rule3 )] returns normally and has removed [rule2],
    the last rule: [indexOf] answers -1 and [splice( -1, 1 )] counts from
    the end. *)
Theorem removeRule_absent_removes_last_rule :
  let r := removeRule this rule3 world in
  rules module = [rule1; rule2] /\
  (rule3 ∉ rules module) /\
  fst r = Normal this /\
  (rules <$> (modules (snd r) !! this)) = Some [rule1].
Proof.
  cbn zeta.
  assert (rule3 ∉ rules module) as Habsent.
  { intros Hin. repeat (apply elem_of_cons in Hin as [Hin|Hin]; [discriminate Hin|]).
    by apply elem_of_nil in Hin. }
  rewrite (removeRule_absent (H := library) this rule3 world module scenario_module Habsent).
  cbn [fst snd modules]. rewrite lookup_insert_eq. auto.
Qed.

(** C2, as the claim states it: no FLV is registered as 'speed';
    [defuzzify( 'speed' )] throws a TypeError, and by then the rules have
    run: the accumulator [desirable] held 0.75 before the call and holds 0.6
    after it. *)
Lemma defuzzify_unregistered_mutates_consequents :
  let r := defuzzify this "speed" VUndefined world in
  flvs module !! "speed" = None /\
  fst r = Throw TypeError /\
  FuzzySet.degreeOfMembership <$> sets (heap world) !! desirable = Some 0.75%float /\
  FuzzySet.degreeOfMembership <$> sets (heap (snd r)) !! desirable = Some 0.6%float /\
  trace (snd r) = trace world ++ [InitConsequence rule1; InitConsequence rule2;
                                  Evaluate rule1; Evaluate rule2].
Proof. cbn zeta. repeat apply conj; by_evaluation. Qed.

(** C2, as amended, on the scenario, the name 'speed' and the type
    'median': the TypeError comes after the four calls on the rules and the
    warning. *)
Lemma defuzzify_unregistered_fails_after_cycle_witness :
  let r := defuzzify this "speed" (VString "median") world in
  flvs module !! "speed" = None /\
  (exists h, rule_cycle (rules module) (heap world) = (Normal tt, h)) /\
  fst r = Throw TypeError /\
  trace (snd r) =
    trace world ++ [InitConsequence rule1; InitConsequence rule2;
                    Evaluate rule1; Evaluate rule2;
                    Warn unknown_method (VString "median")].
Proof.
  cbn zeta.
  assert (flvs module !! "speed" = None) as Hf by by_evaluation.
  assert (rule_cycle (rules module) (heap world)
          = (Normal tt, snd (rule_cycle (rules module) (heap world)))) as Hc
    by by_evaluation.
  split; [exact Hf|]. split; [by eexists|].
  exact (proj2 (proj2 (defuzzify_unregistered_fails_after_cycle this "speed"
                         (VString "median") world module scenario_module Hf)) _ Hc).
Defined.

(** C3 on the scenario: [fuzzify( 'speed', 3 )]. *)
Lemma fuzzify_unregistered_witness :
  flvs module !! "speed" = None /\
  fuzzify this "speed" (VNumber 3) world = (Throw TypeError, world).
Proof.
  assert (flvs module !! "speed" = None) as Hn by by_evaluation.
  split; [exact Hn|].
  exact (fuzzify_unregistered this "speed" (VNumber 3) world module scenario_module Hn).
Defined.

(** C9 on the scenario. *)
Lemma registry_operations_return_this_witness :
  fst (addFLV this "speed" distance world) = Normal this /\
  fst (removeFLV this "distance" world) = Normal this /\
  fst (addRule this rule3 world) = Normal this /\
  fst (removeRule this rule1 world) = Normal this /\
  fst (fuzzify this "distance" (VNumber 40) world) = Normal this.
Proof.
  destruct (registry_operations_return_this this world module scenario_module)
    as (Hadd & Hremove & HaddRule & HremoveRule & _ & Hfuzzify).
  split; [apply Hadd|]. split; [apply Hremove|]. split; [apply HaddRule|].
  split; [apply HremoveRule|].
  apply (Hfuzzify "distance" (VNumber 40) distance); by_evaluation.
Defined.

(** C5 on the scenario: [defuzzify( 'desirability', type )] for [MAXAV],
    for [CENTROID] and for the unknown type 'median'. *)
Lemma defuzzify_call_order_witness :
  (exists h, rule_cycle (rules module) (heap world) = (Normal tt, h)) /\
  trace (snd (defuzzify this "desirability" DEFUZ_TYPE_MAXAV world)) =
    trace world ++ [InitConsequence rule1; InitConsequence rule2;
                    Evaluate rule1; Evaluate rule2; DefuzzifyMaxAv desirability] /\
  trace (snd (defuzzify this "desirability" DEFUZ_TYPE_CENTROID world)) =
    trace world ++ [InitConsequence rule1; InitConsequence rule2;
                    Evaluate rule1; Evaluate rule2; DefuzzifyCentroid desirability] /\
  trace (snd (defuzzify this "desirability" (VString "median") world)) =
    trace world ++ [InitConsequence rule1; InitConsequence rule2;
                    Evaluate rule1; Evaluate rule2;
                    Warn unknown_method (VString "median"); DefuzzifyMaxAv desirability].
Proof.
  assert (flvs module !! "desirability" = Some desirability) as Hf
    by by_evaluation.
  assert (rule_cycle (rules module) (heap world)
          = (Normal tt, snd (rule_cycle (rules module) (heap world)))) as Hc
    by by_evaluation.
  split; [by eexists|]. split; [|split].
  - exact (proj1 (defuzzify_call_order this "desirability" DEFUZ_TYPE_MAXAV world
                    module desirability scenario_module Hf) _ Hc).
  - exact (proj1 (defuzzify_call_order this "desirability" DEFUZ_TYPE_CENTROID world
                    module desirability scenario_module Hf) _ Hc).
  - exact (proj1 (defuzzify_call_order this "desirability" (VString "median") world
                    module desirability scenario_module Hf) _ Hc).
Defined.

(** C4 on the scenario: [defuzzify( 'desirability', 'median' )]. *)
Lemma defuzzify_unknown_type_falls_back_witness :
  let r := defuzzify this "desirability" (VString "median") world in
  fst r = fst (defuzzify this "desirability" DEFUZ_TYPE_MAXAV world) /\
  (forall h, rule_cycle (rules module) (heap world) = (Normal tt, h) ->
     fst r = fst (flv_defuzzifyMaxAv desirability h) /\
     heap (snd r) = snd (flv_defuzzifyMaxAv desirability h) /\
     trace (snd r) =
       trace world ++ map InitConsequence (rules module) ++ map Evaluate (rules module)
                   ++ [Warn unknown_method (VString "median");
                       DefuzzifyMaxAv desirability]).
Proof.
  apply (defuzzify_unknown_type_falls_back this "desirability" (VString "median")
           world module desirability).
  - exact scenario_module.
  - by_evaluation.
  - by_evaluation.
  - by_evaluation.
Defined.

(** C6 on two fuzzy sets with the degrees 0.2 and 0.5. *)
Lemma FuzzyOR_degree_is_maximum_witness :
  (exists m,
     FuzzyTerm.getDegreeOfMembership two_sets
       (FuzzyTerm.FuzzyOR [FuzzyTerm.Set_ near; FuzzyTerm.Set_ far]) = Normal m /\
     m ∈ [0.2%float; 0.5%float] /\
     Forall (fun d => (d <=? m)%float = true) [0.2%float; 0.5%float]) /\
  FuzzyORTest.operator_degree = Normal 0.5%float /\
  FuzzyORTest.should_return_the_maximum = Passed.
Proof.
  apply (FuzzyOR_degree_is_maximum two_sets).
  - discriminate.
  - repeat constructor.
  - repeat constructor.
Defined.

(** Outside the authoring contract the order matters: [rule1] and [rule4]
    are well authored, but [rule4] reads the set [rule1] writes, so their
    consequents are not independent.  On the same fuzzified state, the
    module with [rule1] registered first defuzzifies 'desirability' to 50,
    the module with [rule4] registered first to 75. *)
Lemma chained_rules_depend_on_order :
  well_authored (heap world_chained) [rule1; rule4] = true /\
  independent_consequents (heap world_chained) [rule1; rule4] = false /\
  consequents (objects (heap world_chained) [rule1; rule4]) = [desirable; undesirable] /\
  (rules <$> (modules world_chained !! this)) = Some [rule1; rule4] /\
  (rules <$> (modules world_chained_swapped !! this)) = Some [rule4; rule1] /\
  heap world_chained_swapped = heap world_chained /\
  fst (defuzzify this "desirability" VUndefined world_chained) = Normal (VNumber 50) /\
  fst (defuzzify this "desirability" VUndefined world_chained_swapped)
  = Normal (VNumber 75).
Proof. repeat apply conj; by_evaluation. Qed.

(** C7 on the scenario: [rule1] and [rule2] in either order. *)
Lemma defuzzify_rule_order_independent_witness :
  rules module ≡ₚ [rule2; rule1] /\
  well_authored (heap world) (rules module) = true /\
  independent_consequents (heap world) (rules module) = true /\
  fst (defuzzify this "desirability" VUndefined world_swapped)
  = fst (defuzzify this "desirability" VUndefined world) /\
  heap (snd (defuzzify this "desirability" VUndefined world_swapped))
  = heap (snd (defuzzify this "desirability" VUndefined world)).
Proof.
  assert (rules module ≡ₚ [rule2; rule1]) as Hp by apply Permutation_swap.
  assert (well_authored (heap world) (rules module) = true) as Hw by by_evaluation.
  assert (independent_consequents (heap world) (rules module) = true) as Hi
    by by_evaluation.
  split; [exact Hp|]. split; [exact Hw|]. split; [exact Hi|].
  exact (defuzzify_rule_order_independent 0 samplePoints this "desirability"
           VUndefined world module [rule2; rule1] scenario_module Hp Hw Hi).
Defined.
End OnTheScenario.

(** * Further properties of the module *)

(** ** The registry *)

Section RegistryProperties.
Context `{Collaborators}.
Import FuzzyModule.

(** The module object a world holds at [this] is put back unchanged. *)
Lemma put_back this (w : World) m :
  modules w !! this = Some m ->
  mkWorld (<[this := mk (rules m) (flvs m)]> (modules w)) (heap w) (trace w) = w.
Proof.
  intros Hm. destruct w as [mods h tr], m as [rs fs]. cbn in *.
  by rewrite insert_id.
Qed.

(** X1: [removeRule( rule )] of a registered rule removes its first
    occurrence and nothing else: the rules before it and after it keep
    their order, the FLVs, the heap and the trace are untouched, and the
    call returns [this]. *)
Theorem removeRule_removes_first_occurrence this rule w m :
  modules w !! this = Some m -> rule ∈ rules m ->
  exists l1 l2,
    rules m = l1 ++ rule :: l2 /\ (rule ∉ l1) /\
    removeRule this rule w =
    (Normal this,
     mkWorld (<[this := mk (l1 ++ l2) (flvs m)]> (modules w)) (heap w) (trace w)).
Proof.
  intros Hm Hin.
  destruct (list_elem_of_split_l _ _ Hin) as (l1 & l2 & Hr & Hl1).
  exists l1, l2. split; [done|]. split; [done|].
  by apply removeRule_present.
Qed.

(** X2: adding a rule that is not registered and removing it again, chained
    as [module.addRule( rule ).removeRule( rule )], leaves the world exactly
    as it was. *)
Theorem addRule_removeRule_round_trip this rule w m :
  modules w !! this = Some m -> rule ∉ rules m ->
  (do module <- addRule this rule; removeRule module rule) w = (Normal this, w).
Proof.
  intros Hm Hr. unfold addRule, removeRule, bind, get, put, ret. rewrite Hm.
  cbn [modules heap trace fst snd]. rewrite lookup_insert_eq. cbn [rules flvs].
  unfold indexOf. rewrite indexOf_from_first by done.
  rewrite Z.add_0_l, splice_at, app_nil_r. cbn [modules heap trace].
  rewrite insert_insert_eq. by rewrite put_back.
Qed.

(** Appending [x] to a list gives the list with [x] in front exactly when
    the list holds nothing but [x]. *)
Lemma snoc_eq_cons {A} (x : A) (l : list A) :
  l ++ [x] = x :: l <-> Forall (eq x) l.
Proof.
  induction l as [|a l IH]; cbn.
  - split; [constructor|done].
  - split.
    + intros [= -> Hl]. constructor; [done|by apply IH].
    + intros [<- Hl]%Forall_cons. f_equal. by apply IH.
Qed.

(** X3: adding a rule that is already registered and removing it once
    removes the first occurrence, not the added one: the rules before it
    stay, the rules after it move up and the rule ends the sequence.  The
    sequence is the original one exactly when every rule after the first
    occurrence is that same rule, as when the first occurrence was last. *)
Theorem addRule_removeRule_moves_to_end this rule w m l1 l2 :
  modules w !! this = Some m -> rules m = l1 ++ rule :: l2 -> rule ∉ l1 ->
  (do module <- addRule this rule; removeRule module rule) w =
  (Normal this,
   mkWorld (<[this := mk (l1 ++ l2 ++ [rule]) (flvs m)]> (modules w))
     (heap w) (trace w)) /\
  (l1 ++ l2 ++ [rule] = rules m <-> Forall (eq rule) l2).
Proof.
  intros Hm Hr Hl1. split.
  - unfold addRule, removeRule, bind, get, put, ret. rewrite Hm.
    cbn [modules heap trace fst snd]. rewrite lookup_insert_eq. cbn [rules flvs].
    rewrite Hr, <- app_assoc. cbn [app].
    unfold indexOf. rewrite indexOf_from_first by done.
    rewrite Z.add_0_l, splice_at. cbn [modules heap trace].
    by rewrite insert_insert_eq.
  - rewrite Hr, <- snoc_eq_cons. split; [by intros ?%app_inv_head|by intros ->].
Qed.

(** X4: on a module with no rules, [removeRule] changes nothing. *)
Theorem removeRule_no_rules this rule w m :
  modules w !! this = Some m -> rules m = [] ->
  removeRule this rule w = (Normal this, w).
Proof.
  intros Hm Hr. rewrite (removeRule_absent this rule w m Hm).
  - rewrite Hr. cbn [length take Nat.sub]. rewrite <- Hr. by rewrite put_back.
  - rewrite Hr. apply not_elem_of_nil.
Qed.

(** X5: after [addFLV( name, flv )], whatever was registered under the name
    before, [fuzzify( name, v )] makes exactly one call, [flv.fuzzify( v )];
    it returns [this] when that call completes and throws what that call
    throws. *)
Theorem addFLV_then_fuzzify this name flv v w m :
  modules w !! this = Some m ->
  let r := (do module <- addFLV this name flv; fuzzify module name v) w in
  fst r = match fst (flv_fuzzify flv v (heap w)) with
          | Normal _ => Normal this
          | Throw e => Throw e
          end /\
  heap (snd r) = snd (flv_fuzzify flv v (heap w)) /\
  trace (snd r) = trace w ++ [Fuzzify flv v] /\
  modules (snd r) = <[this := mk (rules m) (<[name := flv]> (flvs m))]> (modules w).
Proof.
  intros Hm. cbn zeta. unfold addFLV, fuzzify, bind, get, put, ret. rewrite Hm.
  cbn [modules heap trace fst snd]. rewrite lookup_insert_eq. cbn [rules flvs].
  rewrite lookup_insert_eq. cbn [on_flv]. unfold call. cbn [modules heap trace].
  by destruct (flv_fuzzify flv v (heap w)) as [[[]|e] h].
Qed.

(** X6: after [removeFLV( name )], [fuzzify( name, v )] throws a TypeError
    and makes no call: the heap and the trace are untouched. *)
Theorem removeFLV_then_fuzzify this name v w m :
  modules w !! this = Some m ->
  (do module <- removeFLV this name; fuzzify module name v) w =
  (Throw TypeError,
   mkWorld (<[this := mk (rules m) (delete name (flvs m))]> (modules w))
           (heap w) (trace w)).
Proof.
  intros Hm. unfold removeFLV, fuzzify, bind, get, put, ret. rewrite Hm.
  cbn [modules heap trace fst snd]. rewrite lookup_insert_eq. cbn [rules flvs].
  by rewrite lookup_delete_eq.
Qed.

(** X7: [removeFLV] of a name that is not registered changes nothing. *)
Theorem removeFLV_unregistered this name w m :
  modules w !! this = Some m -> flvs m !! name = None ->
  removeFLV this name w = (Normal this, w).
Proof.
  intros Hm Hn. unfold removeFLV, bind, get, put, ret. rewrite Hm.
  rewrite delete_id by done. by rewrite put_back.
Qed.

(** X8: registering an FLV under a free name and removing it again, chained
    as [module.addFLV( name, flv ).removeFLV( name )], leaves the world
    exactly as it was. *)
Theorem addFLV_removeFLV_round_trip this name flv w m :
  modules w !! this = Some m -> flvs m !! name = None ->
  (do module <- addFLV this name flv; removeFLV module name) w = (Normal this, w).
Proof.
  intros Hm Hn. unfold addFLV, removeFLV, bind, get, put, ret. rewrite Hm.
  cbn [modules heap trace fst snd]. rewrite lookup_insert_eq. cbn [rules flvs].
  rewrite delete_insert_id by done. cbn [modules heap trace].
  rewrite insert_insert_eq. by rewrite put_back.
Qed.

(** X9: the last [addFLV] under a name wins: registering [flv1] and then
    [flv2] under the same name leaves the world that registering [flv2]
    alone leaves. *)
Theorem addFLV_last_write_wins this name flv1 flv2 w m :
  modules w !! this = Some m ->
  (do module <- addFLV this name flv1; addFLV module name flv2) w =
  addFLV this name flv2 w.
Proof.
  intros Hm. unfold addFLV, bind, get, put, ret. rewrite Hm.
  cbn [modules heap trace fst snd]. rewrite lookup_insert_eq. cbn [rules flvs].
  cbn [modules heap trace]. by rewrite !insert_insert_eq.
Qed.

(** X10: the four registry operations write one field of one module: the
    heap, the trace and every other module are untouched, [addFLV] and
    [removeFLV] keep the rules of [this], [addRule] and [removeRule] keep
    its FLVs. *)
Theorem registry_operations_frame this w m :
  modules w !! this = Some m ->
  (forall name flv,
     writes_only_module this w (snd (addFLV this name flv w)) /\
     rules <$> (modules (snd (addFLV this name flv w)) !! this) = Some (rules m)) /\
  (forall name,
     writes_only_module this w (snd (removeFLV this name w)) /\
     rules <$> (modules (snd (removeFLV this name w)) !! this) = Some (rules m)) /\
  (forall rule,
     writes_only_module this w (snd (addRule this rule w)) /\
     flvs <$> (modules (snd (addRule this rule w)) !! this) = Some (flvs m)) /\
  (forall rule,
     writes_only_module this w (snd (removeRule this rule w)) /\
     flvs <$> (modules (snd (removeRule this rule w)) !! this) = Some (flvs m)).
Proof.
  intros Hm. unfold writes_only_module.
  repeat apply conj; intros;
    unfold addFLV, removeFLV, addRule, removeRule, bind, get, put, ret;
    rewrite Hm; cbn [modules heap trace fst snd];
    rewrite lookup_insert_eq;
    (repeat apply conj; [done | done | | done]);
    intros other Hother; by apply lookup_insert_ne.
Qed.

(** X11: [new FuzzyModule()] yields a reference that no module had, to a
    module with no rules and no FLVs; the modules that existed, the heap and
    the trace are untouched. *)
Theorem constructor_fresh (w : World) :
  let this := fresh (dom (modules w)) in
  fst (constructor w) = Normal this /\
  modules w !! this = None /\
  modules (snd (constructor w)) !! this = Some (mk [] ∅) /\
  (forall other, other <> this ->
     modules (snd (constructor w)) !! other = modules w !! other) /\
  heap (snd (constructor w)) = heap w /\
  trace (snd (constructor w)) = trace w.
Proof.
  cbn zeta. unfold constructor. cbn [fst snd modules heap trace].
  split; [done|]. split; [apply not_elem_of_dom, is_fresh|].
  split; [apply lookup_insert_eq|]. split; [|done].
  intros other Hne. by rewrite lookup_insert_ne.
Qed.
End RegistryProperties.

(** ** The inference cycle *)

Section CycleProperties.
Context `{Collaborators}.
Import FuzzyModule.

Lemma for_each_snoc_throw {A St} (l1 l2 : list A) x (body : A -> JS St unit) s s1 s2 e :
  for_each l1 body s = (Normal tt, s1) -> body x s1 = (Throw e, s2) ->
  for_each (l1 ++ x :: l2) body s = (Throw e, s2) /\
  invoked (l1 ++ x :: l2) body s = S (length l1).
Proof.
  revert s. induction l1 as [|y l1 IH]; intros s Hl1 Hx.
  - cbn in Hl1. injection Hl1 as <-. cbn [app]. rewrite for_each_cons. cbn [invoked].
    by rewrite Hx.
  - rewrite for_each_cons in Hl1. cbn [app]. rewrite for_each_cons. cbn [invoked length].
    destruct (body y s) as [[[]|e'] s']; [|done].
    destruct (IH s' Hl1 Hx) as [-> ->]. done.
Qed.

(** X12: when the rule cycle runs to its end, [defuzzify( name, CENTROID )]
    on a registered FLV returns what [flv.defuzzifyCentroid()] yields on the
    heap the cycle left; it never calls [defuzzifyMaxAv] and logs no
    warning. *)
Theorem defuzzify_centroid this name type w m flv h :
  modules w !! this = Some m -> flvs m !! name = Some flv ->
  strict_equals type DEFUZ_TYPE_CENTROID = true ->
  rule_cycle (rules m) (heap w) = (Normal tt, h) ->
  defuzzify this name type w =
  (fst (flv_defuzzifyCentroid flv h),
   mkWorld (modules w) (snd (flv_defuzzifyCentroid flv h))
     (trace w ++ map InitConsequence (rules m) ++ map Evaluate (rules m)
              ++ [DefuzzifyCentroid flv])).
Proof.
  intros Hm Hf Hty Hc.
  assert (default_parameter type DEFUZ_TYPE_MAXAV = type) as Hd.
  { unfold default_parameter. by destruct type. }
  assert (strict_equals type DEFUZ_TYPE_MAXAV = false) as Hmax.
  { destruct type as [| |b|x|s|l]; try done. cbn in *.
    destruct (x =? 0)%float eqn:E0; [|done].
    rewrite FloatAxioms.eqb_spec in Hty, E0.
    destruct (Prim2SF x) as [[]|[]| |[] mx ex]; cbn in *; try done. }
  rewrite (defuzzify_run this name type w m Hm). cbn zeta. rewrite Hd.
  rewrite rule_cycle_run in Hc.
  destruct (for_each (rules m) rule_initConsequence (heap w)) as [[[]|e1] h1] eqn:Hi;
    [|done]. cbn [fst snd].
  assert (invoked (rules m) rule_initConsequence (heap w) = length (rules m)) as ->.
  { apply (invoked_Normal _ _ _ tt). by rewrite Hi. }
  rewrite Hc. cbn [fst snd].
  assert (invoked (rules m) rule_evaluate h1 = length (rules m)) as ->.
  { apply (invoked_Normal _ _ _ tt). by rewrite Hc. }
  rewrite !firstn_all, Hf, switch_run_registered. cbn zeta. cbn [heap modules trace].
  rewrite Hmax, Hty. by rewrite <- !app_assoc.
Qed.

(** X13: when the rule cycle runs to its end, [defuzzify( name )] with the
    type omitted, [undefined] or [MAXAV] returns what [flv.defuzzifyMaxAv()]
    yields on the heap the cycle left; it never calls [defuzzifyCentroid]
    and logs no warning. *)
Theorem defuzzify_maxav_by_default this name type w m flv h :
  modules w !! this = Some m -> flvs m !! name = Some flv ->
  strict_equals (default_parameter type DEFUZ_TYPE_MAXAV) DEFUZ_TYPE_MAXAV = true ->
  rule_cycle (rules m) (heap w) = (Normal tt, h) ->
  defuzzify this name type w =
  (fst (flv_defuzzifyMaxAv flv h),
   mkWorld (modules w) (snd (flv_defuzzifyMaxAv flv h))
     (trace w ++ map InitConsequence (rules m) ++ map Evaluate (rules m)
              ++ [DefuzzifyMaxAv flv])).
Proof.
  intros Hm Hf Hty Hc.
  rewrite (defuzzify_run this name type w m Hm). cbn zeta.
  rewrite rule_cycle_run in Hc.
  destruct (for_each (rules m) rule_initConsequence (heap w)) as [[[]|e1] h1] eqn:Hi;
    [|done]. cbn [fst snd].
  assert (invoked (rules m) rule_initConsequence (heap w) = length (rules m)) as ->.
  { apply (invoked_Normal _ _ _ tt). by rewrite Hi. }
  rewrite Hc. cbn [fst snd].
  assert (invoked (rules m) rule_evaluate h1 = length (rules m)) as ->.
  { apply (invoked_Normal _ _ _ tt). by rewrite Hc. }
  rewrite !firstn_all, Hf, switch_run_registered. cbn zeta. cbn [heap modules trace].
  rewrite Hty. by rewrite <- !app_assoc.
Qed.

(** X14: when [initConsequence] of a rule throws, [defuzzify] throws the same
    exception at once: the rules after it are not initialised, no rule is
    evaluated, no FLV is looked up or asked and no warning is logged,
    whatever the name and the type. *)
Theorem defuzzify_initConsequence_throws this name type w m l1 rule l2 h1 h2 e :
  modules w !! this = Some m -> rules m = l1 ++ rule :: l2 ->
  for_each l1 rule_initConsequence (heap w) = (Normal tt, h1) ->
  rule_initConsequence rule h1 = (Throw e, h2) ->
  defuzzify this name type w =
  (Throw e,
   mkWorld (modules w) h2
     (trace w ++ map InitConsequence l1 ++ [InitConsequence rule])).
Proof.
  intros Hm Hr Hl1 Hx.
  rewrite (defuzzify_run this name type w m Hm). cbn zeta. rewrite Hr.
  destruct (for_each_snoc_throw l1 l2 rule rule_initConsequence _ _ _ _ Hl1 Hx)
    as [-> ->].
  cbn [fst snd]. do 2 f_equal.
  replace (S (length l1)) with (length l1 + 1) by lia.
  rewrite take_app_add. cbn [take]. by rewrite map_app.
Qed.

(** X15: when every consequent was initialised and [evaluate] of a rule
    throws, [defuzzify] throws the same exception: the rules after it are not
    evaluated, no FLV is looked up or asked and no warning is logged, so an
    unregistered name or an unknown type goes unnoticed. *)
Theorem defuzzify_evaluate_throws this name type w m l1 rule l2 h0 h1 h2 e :
  modules w !! this = Some m -> rules m = l1 ++ rule :: l2 ->
  for_each (rules m) rule_initConsequence (heap w) = (Normal tt, h0) ->
  for_each l1 rule_evaluate h0 = (Normal tt, h1) ->
  rule_evaluate rule h1 = (Throw e, h2) ->
  defuzzify this name type w =
  (Throw e,
   mkWorld (modules w) h2
     (trace w ++ map InitConsequence (rules m) ++ map Evaluate l1 ++ [Evaluate rule])).
Proof.
  intros Hm Hr Hi Hl1 Hx.
  rewrite (defuzzify_run this name type w m Hm). cbn zeta. rewrite Hi. cbn [fst snd].
  assert (invoked (rules m) rule_initConsequence (heap w) = length (rules m)) as ->.
  { apply (invoked_Normal _ _ _ tt). by rewrite Hi. }
  rewrite firstn_all.
  remember (map InitConsequence (rules m)) as inits eqn:Hinits. rewrite Hr.
  destruct (for_each_snoc_throw l1 l2 rule rule_evaluate _ _ _ _ Hl1 Hx) as [-> ->].
  cbn [fst snd trace]. do 2 f_equal.
  replace (S (length l1)) with (length l1 + 1) by lia.
  rewrite take_app_add. cbn [take]. by rewrite map_app, <- app_assoc.
Qed.

(** X16: [_initConsequences()] calls [initConsequence] on the rules in
    registration order and nothing else; when it returns, it returns [this],
    it made one call per registration and the heap is the one these calls
    left; the registry is untouched either way. *)
Theorem initConsequences_calls this w m :
  modules w !! this = Some m ->
  let r := _initConsequences this w in
  modules (snd r) = modules w /\
  heap (snd r) = snd (for_each (rules m) rule_initConsequence (heap w)) /\
  (exists k, trace (snd r) = trace w ++ map InitConsequence (take k (rules m))) /\
  (forall v, fst r = Normal v ->
     v = this /\ trace (snd r) = trace w ++ map InitConsequence (rules m)).
Proof.
  intros Hm. cbn zeta. rewrite (initConsequences_run this w m Hm). cbn [fst snd modules heap trace].
  split; [done|]. split; [done|]. split; [by eexists|].
  intros v Hv.
  destruct (fst (for_each (rules m) rule_initConsequence (heap w))) as [[]|e] eqn:E;
    [|done].
  injection Hv as <-. split; [done|].
  rewrite (invoked_Normal _ _ _ tt E). by rewrite firstn_all.
Qed.
End CycleProperties.

(** ** The further properties on concrete modules *)

(** A closed equation between results, checked by evaluating both sides. *)
Ltac by_running :=
  lazymatch goal with
  | |- @eq ?T ?x ?y => exact (@eq_refl T y <: @eq T x y)
  end.

Section FurtherOnTheScenario.
Import FuzzyModule Scenario.
#[local] Existing Instance library.

Lemma scenario_speed_free : flvs module !! "speed" = None.
Proof. by_running. Qed.

(** X1 on the scenario: [removeRule( rule1 )]. *)
Lemma removeRule_removes_first_occurrence_witness :
  (rule1 ∈ rules module) /\
  exists l1 l2, rules module = l1 ++ rule1 :: l2 /\ (rule1 ∉ l1) /\
    removeRule this rule1 world =
    (Normal this,
     mkWorld (<[this := mk (l1 ++ l2) (flvs module)]> (modules world))
       (heap world) (trace world)).
Proof.
  assert (rule1 ∈ rules module) as Hin by (apply elem_of_cons; by left).
  split; [exact Hin|].
  exact (removeRule_removes_first_occurrence (H := library) this rule1 world module
           scenario_module Hin).
Defined.

(** X2 on the scenario: [addRule( rule3 ).removeRule( rule3 )]. *)
Lemma addRule_removeRule_round_trip_witness :
  (rule3 ∉ rules module) /\
  (do module <- addRule this rule3; removeRule module rule3) world = (Normal this, world).
Proof.
  assert (rule3 ∉ rules module) as Habsent.
  { intros Hin. repeat (apply elem_of_cons in Hin as [Hin|Hin]; [discriminate Hin|]).
    by apply elem_of_nil in Hin. }
  split; [exact Habsent|].
  exact (addRule_removeRule_round_trip (H := library) this rule3 world module
           scenario_module Habsent).
Defined.

(** X3 on the scenario: [addRule( rule1 ).removeRule( rule1 )] turns the
    rules [rule1, rule2] into [rule2, rule1]. *)
Lemma addRule_removeRule_moves_to_end_witness :
  (do module <- addRule this rule1; removeRule module rule1) world =
  (Normal this,
   mkWorld (<[this := mk ([] ++ [rule2] ++ [rule1]) (flvs module)]> (modules world))
     (heap world) (trace world)) /\
  ([] ++ [rule2] ++ [rule1] = rules module <-> Forall (eq rule1) [rule2]).
Proof.
  apply (addRule_removeRule_moves_to_end (H := library) this rule1 world module
           [] [rule2] scenario_module).
  - reflexivity.
  - apply not_elem_of_nil.
Defined.

(** X5 on the scenario: [addFLV( 'speed', distance ).fuzzify( 'speed', 30 )]. *)
Lemma addFLV_then_fuzzify_witness :
  let v := VNumber 30 in
  let r := (do module <- addFLV this "speed" distance; fuzzify module "speed" v) world in
  fst r = match fst (flv_fuzzify distance v (heap world)) with
          | Normal _ => Normal this
          | Throw e => Throw e
          end /\
  heap (snd r) = snd (flv_fuzzify distance v (heap world)) /\
  trace (snd r) = trace world ++ [Fuzzify distance v] /\
  modules (snd r) =
    <[this := mk (rules module) (<[ "speed" := distance]> (flvs module))]> (modules world).
Proof.
  exact (addFLV_then_fuzzify (H := library) this "speed" distance (VNumber 30) world
           module scenario_module).
Defined.

(** X6 on the scenario: [removeFLV( 'distance' ).fuzzify( 'distance', 30 )]. *)
Lemma removeFLV_then_fuzzify_witness :
  (do module <- removeFLV this "distance"; fuzzify module "distance" (VNumber 30)) world =
  (Throw TypeError,
   mkWorld (<[this := mk (rules module) (delete "distance" (flvs module))]> (modules world))
     (heap world) (trace world)).
Proof.
  exact (removeFLV_then_fuzzify (H := library) this "distance" (VNumber 30) world
           module scenario_module).
Defined.

(** X7 on the scenario: [removeFLV( 'speed' )]. *)
Lemma removeFLV_unregistered_witness :
  removeFLV this "speed" world = (Normal this, world).
Proof.
  exact (removeFLV_unregistered (H := library) this "speed" world module
           scenario_module scenario_speed_free).
Defined.

(** X8 on the scenario: [addFLV( 'speed', distance ).removeFLV( 'speed' )]. *)
Lemma addFLV_removeFLV_round_trip_witness :
  (do module <- addFLV this "speed" distance; removeFLV module "speed") world =
  (Normal this, world).
Proof.
  exact (addFLV_removeFLV_round_trip (H := library) this "speed" distance world module
           scenario_module scenario_speed_free).
Defined.

(** X9 on the scenario: [addFLV( 'speed', distance ).addFLV( 'speed',
    desirability )]. *)
Lemma addFLV_last_write_wins_witness :
  (do module <- addFLV this "speed" distance; addFLV module "speed" desirability) world =
  addFLV this "speed" desirability world.
Proof.
  exact (addFLV_last_write_wins (H := library) this "speed" distance desirability world
           module scenario_module).
Defined.

(** X10 on the scenario: [removeRule( rule1 )] keeps the FLVs and writes the
    one module. *)
Lemma registry_operations_frame_witness :
  writes_only_module this world (snd (removeRule this rule1 world)) /\
  flvs <$> (modules (snd (removeRule this rule1 world)) !! this) = Some (flvs module).
Proof.
  exact (proj2 (proj2 (proj2
           (registry_operations_frame (H := library) this world module scenario_module)))
           rule1).
Defined.

(** X12 on the scenario: [defuzzify( 'desirability', CENTROID )]. *)
Lemma defuzzify_centroid_witness :
  let h := snd (rule_cycle (rules module) (heap world)) in
  defuzzify this "desirability" DEFUZ_TYPE_CENTROID world =
  (fst (flv_defuzzifyCentroid desirability h),
   mkWorld (modules world) (snd (flv_defuzzifyCentroid desirability h))
     (trace world ++ map InitConsequence (rules module) ++ map Evaluate (rules module)
        ++ [DefuzzifyCentroid desirability])).
Proof.
  cbn zeta.
  apply (defuzzify_centroid (H := library) this "desirability" DEFUZ_TYPE_CENTROID world
           module desirability _ scenario_module); by_running.
Defined.

(** X13 on the scenario: [defuzzify( 'desirability' )], the type left out. *)
Lemma defuzzify_maxav_by_default_witness :
  let h := snd (rule_cycle (rules module) (heap world)) in
  defuzzify this "desirability" VUndefined world =
  (fst (flv_defuzzifyMaxAv desirability h),
   mkWorld (modules world) (snd (flv_defuzzifyMaxAv desirability h))
     (trace world ++ map InitConsequence (rules module) ++ map Evaluate (rules module)
        ++ [DefuzzifyMaxAv desirability])).
Proof.
  cbn zeta.
  apply (defuzzify_maxav_by_default (H := library) this "desirability" VUndefined world
           module desirability _ scenario_module); by_running.
Defined.

(** X16 on the scenario: [_initConsequences()]. *)
Lemma initConsequences_calls_witness :
  let r := _initConsequences this world in
  modules (snd r) = modules world /\
  heap (snd r) = snd (for_each (rules module) rule_initConsequence (heap world)) /\
  (exists k, trace (snd r) = trace world ++ map InitConsequence (take k (rules module))) /\
  (forall v, fst r = Normal v ->
     v = this /\ trace (snd r) = trace world ++ map InitConsequence (rules module)).
Proof.
  exact (initConsequences_calls (H := library) this world module scenario_module).
Defined.
End FurtherOnTheScenario.

Section OnTheDoubles.
Import FuzzyModule Doubles.
#[local] Existing Instance recording.

(** X4 on a module without rules: [removeRule( 5 )]. *)
Lemma removeRule_no_rules_witness :
  removeRule 1%positive 5 (world []) = (Normal 1%positive, world []).
Proof.
  apply (removeRule_no_rules (H := recording) 1%positive 5 (world []) (mk (H := recording) [] ∅));
    reflexivity.
Defined.

(** X14 on the rules 1, 13, 2: [initConsequence] of rule 13 throws, rule 2
    is not reached and no rule is evaluated. *)
Lemma defuzzify_initConsequence_throws_witness :
  defuzzify 1%positive "x" VUndefined (world [1; 13; 2]) =
  (Throw ConfigurationError,
   mkWorld (modules (world [1; 13; 2])) [1]
     (trace (world [1; 13; 2]) ++ map (InitConsequence (H := recording)) [1] ++ [InitConsequence (H := recording) 13])).
Proof.
  apply (defuzzify_initConsequence_throws (H := recording) 1%positive "x" VUndefined
           (world [1; 13; 2]) (mk (H := recording) [1; 13; 2] ∅) [1] 13 [2] [1] [1] ConfigurationError);
    reflexivity.
Defined.

(** X15 on the rules 1, 7, 2: every consequent is initialised, rule 1 is
    evaluated, [evaluate] of rule 7 throws and rule 2 is not evaluated. *)
Lemma defuzzify_evaluate_throws_witness :
  defuzzify 1%positive "x" VUndefined (world [1; 7; 2]) =
  (Throw ConfigurationError,
   mkWorld (modules (world [1; 7; 2])) [1; 7; 2; 1]
     (trace (world [1; 7; 2]) ++ map InitConsequence (rules (mk (H := recording) [1; 7; 2] ∅))
        ++ map (Evaluate (H := recording)) [1] ++ [Evaluate (H := recording) 7])).
Proof.
  apply (defuzzify_evaluate_throws (H := recording) 1%positive "x" VUndefined
           (world [1; 7; 2]) (mk (H := recording) [1; 7; 2] ∅) [1] 7 [2] [1; 7; 2] [1; 7; 2; 1] [1; 7; 2; 1]
           ConfigurationError);
    reflexivity.
Defined.
End OnTheDoubles.
